(** * MarketMatrix: the temporal snapshot engine

    A shallow embedding of the TypeScript sources that build, navigate and
    summarise the market history:

    - [services/marketData.ts]      ([generateMarketCap], [fetchHistory])
    - [hooks/useMarketData.ts]      ([useMarketData])
    - [components/TimeTravelFooter] (the 24 hour window and its index maps)
    - [utils/analytics.ts]          ([calculateSentiment])

    JavaScript values are modelled as they exist at run time: the document
    returned by [response.json()] is an untyped JSON tree, objects are finite
    maps from property names to values, Numbers are IEEE binary64 floats, and
    the time value of a [Date] is either [NaN] or an integer number of
    milliseconds.  Exceptions (those of the conversions [String(v)] and
    [new Date(v)] among them), the console and [Math.random] are threaded
    through a small state and error monad. *)

From Stdlib Require Import ZArith Floats Uint63 Sorted.
From stdpp Require Import gmap strings list fin_maps pretty.

Open Scope Z_scope.

(* ===================================================================== *)
(** ** JavaScript values *)
(* ===================================================================== *)

Module Js.

(** A run-time value: what [JSON.parse] can produce, plus [undefined]
    (the result of reading an absent property).  Strings are sequences of
    one-byte characters. *)
#[warnings="-register-all"]
Inductive JsVal :=
| JUndef
| JNull
| JBool (b : bool)
| JNum (x : float)
| JStr (s : string)
| JArr (l : list JsVal)
| JObj (m : gmap string JsVal).

(** An object built by the program (a [Stock]): property name to value. *)
Abbreviation Obj := (gmap string JsVal).

(** The time value of a [Date], the result of [getTime()] and of
    [Date.now()]: [None] is [NaN], [Some t] is [t] milliseconds since the
    epoch.  Time values are integral and at most 8.64e15 in magnitude, so
    [Z] represents them exactly. *)
Definition TimeValue := option Z.

(** What the program can throw, and what [fetch] can reject with. *)
Inductive JsError :=
| NetworkError (message : string)
| HttpError (message : string)      (* new Error(`Failed to fetch data: ...`) *)
| SyntaxError (message : string)    (* response.json() on a malformed body *)
| TypeError (reading : string).     (* property read on null/undefined, a call
                                       of something that is no function, or
                                       an object that has no primitive value *)

(** The parts of the host (engine, locale, random source) that the
    program calls and that ECMAScript leaves to the implementation or that
    are too large to restate here. *)
Record Host := {
  (** [Number::toString(x)], radix 10. *)
  Number_toString : float -> string;
  (** [Date.parse]: the time value of a date string, [None] when it does not
      parse. *)
  Date_parse : string -> TimeValue;
  (** [toLocaleTimeString([], {hour: '2-digit', minute: '2-digit'})]. *)
  Date_toLocaleTimeString : TimeValue -> string;
  (** The value returned by the [n]-th call of [Math.random()]. *)
  Math_random : nat -> float
}.

(** *** Conversions and operators *)

(** ToBoolean. *)
Definition truthy (v : JsVal) : bool :=
  match v with
  | JUndef | JNull => false
  | JBool b => b
  | JNum x => negb (PrimFloat.eqb x 0 || PrimFloat.is_nan x)
  | JStr s => negb (String.eqb s "")
  | JArr _ | JObj _ => true
  end.

Definition nullish (v : JsVal) : bool :=
  match v with JUndef | JNull => true | _ => false end.

(** [a === b].  Two arrays or two objects are equal only when they are the
    same reference; every comparison in the program is between a value of
    one record of the parsed document and a value of another record (or a
    literal), which are distinct references, hence [false]. *)
Definition strict_eq (a b : JsVal) : bool :=
  match a, b with
  | JUndef, JUndef => true
  | JNull, JNull => true
  | JBool x, JBool y => Bool.eqb x y
  | JNum x, JNum y => PrimFloat.eqb x y
  | JStr x, JStr y => String.eqb x y
  | _, _ => false
  end.

(** [Array.prototype.includes] on an array of string literals
    (SameValueZero: only an equal string is found). *)
Definition includes (l : list string) (v : JsVal) : bool :=
  match v with
  | JStr s => existsb (String.eqb s) l
  | _ => false
  end.

(** [Array.prototype.join(",")] on already converted elements. *)
Fixpoint join_comma (l : list string) : string :=
  match l with
  | [] => ""
  | [s] => s
  | s :: l' => s +:+ "," +:+ join_comma l'
  end.

Section WithHost.
Variable h : Host.

(** [String(v)] (ToString); [None] when the conversion throws a
    [TypeError].  An object converts through its [toString] method.  An
    object parsed from JSON inherits [Object.prototype.toString], which
    gives ["[object Object]"], unless it has an own property named
    [toString]: that property is no function, so OrdinaryToPrimitive
    passes it over, [valueOf] returns the object itself, and the conversion
    throws.  An array converts as [join(",")], where [null] and [undefined]
    elements give the empty string and every other element is converted in
    turn, so the conversion throws when one of these does. *)
Fixpoint ToString (v : JsVal) : option string :=
  match v with
  | JUndef => Some "undefined"
  | JNull => Some "null"
  | JBool true => Some "true"
  | JBool false => Some "false"
  | JNum x => Some (Number_toString h x)
  | JStr s => Some s
  | JArr l =>
      join_comma <$>
        (fix elems (l : list JsVal) : option (list string) :=
           match l with
           | [] => Some []
           | e :: l' =>
               match (if nullish e then Some "" else ToString e), elems l' with
               | Some s, Some ss => Some (s :: ss)
               | _, _ => None
               end
           end) l
  | JObj m =>
      match m !! "toString" with
      | Some _ => None
      | None => Some "[object Object]"
      end
  end.
End WithHost.

(** The own enumerable properties of a value, as the object spread
    [{...v}] copies them: the properties of an object, the indices of an
    array or of a string, nothing for the other values. *)
Definition own_props (v : JsVal) : Obj :=
  match v with
  | JObj m => m
  | JArr l => list_to_map (imap (fun i e => (pretty i, e)) l)
  | JStr s =>
      list_to_map
        (imap (fun i c => (pretty i, JStr (String c EmptyString)))
              (String.list_ascii_of_string s))
  | _ => ∅
  end.

(** [o.k] on an object of the program. *)
Definition field (o : Obj) (k : string) : JsVal := default JUndef (o !! k).

(** [v.k] on a value that is neither [null] nor [undefined], for the data
    property names the program reads ([ticker], [stocks], ...; none of
    them is [length] or a member of a built-in prototype). *)
Definition prop (v : JsVal) (k : string) : JsVal := field (own_props v) k.

(** *** Numbers *)

Definition of_Z (z : Z) : float := PrimFloat.of_uint63 (Uint63.of_Z z).
Definition of_nat (n : nat) : float := of_Z (Z.of_nat n).

(** [Math.round]: the nearest integer, a tie going towards +infinity;
    [NaN], the infinities, the zeros and the integers are returned as they
    are.  The float is read exactly as [m * 2^e]. *)
Definition Math_round (x : float) : float :=
  match Prim2SF x with
  | S754_finite s m e =>
      if 0 <=? e then x
      else
        let d := 2 ^ (- e) in
        let v := if s then Z.neg m else Z.pos m in
        let q := (2 * v + d) / (2 * d) in
        if q =? 0 then (if s then (-0)%float else 0%float)
        else if q <? 0 then PrimFloat.opp (of_Z (- q))
        else of_Z q
  | _ => x
  end.

(** [n] written with two fraction digits, for a natural number of
    hundredths [n]: at least three digits, a point before the last two. *)
Definition hundredths (n : Z) : string :=
  let m := pretty n in
  let m := if (String.length m <=? 2)%nat
           then String.concat "" (replicate (3 - String.length m)%nat "0") +:+ m
           else m in
  let k := String.length m in
  String.substring 0 (k - 2) m +:+ "." +:+ String.substring (k - 2) 2 m.

(** [x.toFixed(2)]: the integer [n] for which [n / 100] is nearest to
    [|x|], the larger one on a tie, written with two fraction digits;
    [String(x)] when [x] is not finite or is at least 1e21. *)
Definition toFixed2 (h : Host) (x : float) : string :=
  match Prim2SF x with
  | S754_zero _ => "0.00"
  | S754_finite s m e =>
      let d := 2 ^ (- e) in
      let huge := if 0 <=? e then 10 ^ 21 <=? Z.pos m * 2 ^ e
                  else 10 ^ 21 * d <=? Z.pos m in
      let n := if 0 <=? e then 100 * (Z.pos m * 2 ^ e)
               else (200 * Z.pos m + d) / (2 * d) in
      if huge then Number_toString h x
      else (if s then "-" else "") +:+ hundredths n
  | _ => Number_toString h x
  end.

(** *** Dates *)

Definition maxTime : Z := 8640000000000000.

(** [TimeClip(x)] for a Number [x]: [NaN] when [x] is not finite or exceeds
    8.64e15 in magnitude, else [x] truncated towards zero. *)
Definition TimeClip (x : float) : TimeValue :=
  match Prim2SF x with
  | S754_zero _ => Some 0
  | S754_finite s m e =>
      let exceeds :=
        if 0 <=? e then maxTime <? Z.pos m * 2 ^ e
        else maxTime * 2 ^ (- e) <? Z.pos m in
      let t := if 0 <=? e then Z.pos m * 2 ^ e else Z.pos m / 2 ^ (- e) in
      if exceeds then None else Some (if s then - t else t)
  | _ => None
  end.

(** [new Date(v).getTime()]: a string is parsed, an array or an object is
    first converted to a primitive, every other value is converted to a
    Number and clipped.  The outer [None] is a [TypeError] thrown by the
    constructor: ToPrimitive of an array or of an object parsed from JSON
    ends in the same [toString] call as [String(v)] ([valueOf] returns the
    object itself), and throws when that does. *)
Definition Date_new (h : Host) (v : JsVal) : option TimeValue :=
  match v with
  | JUndef => Some None
  | JNull => Some (Some 0)
  | JBool b => Some (Some (if b then 1 else 0))
  | JNum x => Some (TimeClip x)
  | JStr s => Some (Date_parse h s)
  | JArr _ | JObj _ => Date_parse h <$> ToString h v
  end.

(** [a - b] on time values: [NaN] as soon as one of them is.  (Only the
    sign of the difference is used; the sign of the rounded difference of
    two integers is the sign of the exact one.) *)
Definition time_sub (a b : TimeValue) : option Z :=
  match a, b with
  | Some x, Some y => Some (x - y)
  | _, _ => None
  end.

(** [a >= b], [a <= b] and [a === b] on Numbers one of which may be [NaN]. *)
Definition time_ge (a : TimeValue) (b : Z) : bool :=
  match a with Some x => b <=? x | None => false end.

Definition time_le (a b : TimeValue) : bool :=
  match a, b with Some x, Some y => x <=? y | _, _ => false end.

Definition time_eq (a b : TimeValue) : bool :=
  match a, b with Some x, Some y => x =? y | _, _ => false end.

(** *** Arrays *)

Section Arrays.
Context {A : Type}.

(** [l[i]] for an integral index: [undefined] outside the array. *)
Definition at_index (l : list A) (i : Z) : option A :=
  if i <? 0 then None else l !! Z.to_nat i.

(** [Array.prototype.findIndex]: the first index whose element
    satisfies [p], else -1. *)
Fixpoint findIndex (p : A -> bool) (l : list A) : Z :=
  match l with
  | [] => -1
  | x :: l' =>
      if p x then 0
      else let r := findIndex p l' in if r <? 0 then -1 else r + 1
  end.

(** [Array.prototype.sort(comparefn)].  The comparator's result [v]
    orders [a] after [b] only when [v > 0]; a [NaN] result counts as 0.
    The sort is stable; it is modelled by a stable insertion sort, which
    for a consistent comparator returns the one order ECMAScript allows
    (for an inconsistent one the order is implementation-defined). *)
Definition comes_after (v : option Z) : bool :=
  match v with Some d => 0 <? d | None => false end.

Fixpoint sort_insert (cmp : A -> A -> option Z) (x : A) (l : list A) : list A :=
  match l with
  | [] => [x]
  | y :: l' =>
      if comes_after (cmp x y) then y :: sort_insert cmp x l'
      else x :: y :: l'
  end.

Fixpoint sort (cmp : A -> A -> option Z) (l : list A) : list A :=
  match l with
  | [] => []
  | x :: l' => sort_insert cmp x (sort cmp l')
  end.
End Arrays.

End Js.

(* ===================================================================== *)
(** ** Effects: exceptions, the console, the random source *)
(* ===================================================================== *)

Module Fx.
Import Js.

(** What the program observes of, and does to, the outside:
    how many times [Math.random] was called and what was written with
    [console.error]. *)
Record World := {
  random_calls : nat;
  console : list (string * JsError)
}.

(** How a computation ends: with a value, or by throwing. *)
Inductive Completion (A : Type) :=
| Normal (a : A)
| Throw (e : JsError).
Arguments Normal {A} a.
Arguments Throw {A} e.

Definition M (A : Type) : Type := World -> Completion A * World.

Definition ret {A} (a : A) : M A := fun w => (Normal a, w).

Definition bind {A B} (c : M A) (k : A -> M B) : M B :=
  fun w =>
    match c w with
    | (Normal a, w') => k a w'
    | (Throw e, w') => (Throw e, w')
    end.

Definition throw {A} (e : JsError) : M A := fun w => (Throw e, w).

(** [try { body } catch (error) { handler(error) }]. *)
Definition try_catch {A} (body : M A) (handler : JsError -> M A) : M A :=
  fun w =>
    match body w with
    | (Normal a, w') => (Normal a, w')
    | (Throw e, w') => handler e w'
    end.

Definition console_error (message : string) (error : JsError) : M unit :=
  fun w =>
    (Normal tt,
     {| random_calls := random_calls w;
        console := console w ++ [(message, error)] |}).

Definition random (h : Host) : M float :=
  fun w =>
    (Normal (Math_random h (random_calls w)),
     {| random_calls := S (random_calls w); console := console w |}).

Notation "'let!' x ':=' c 'in' k" := (bind c (fun x => k))
  (at level 10, x name, c at level 100, k at level 200).

(** A conversion ([String(v)], [new Date(v)]) that throws a [TypeError]
    when it has no result. *)
Definition convert {A} (r : option A) : M A :=
  match r with
  | Some a => ret a
  | None => throw (TypeError "toString")
  end.

(** [v.k]: a [TypeError] when [v] is [null] or [undefined]. *)
Definition get (v : JsVal) (k : string) : M JsVal :=
  if nullish v then throw (TypeError k) else ret (prop v k).

(** Calling a callback on each element in order, as [map] does; the first
    exception ends the loop. *)
Fixpoint mapM {A B} (f : A -> M B) (l : list A) : M (list B) :=
  match l with
  | [] => ret []
  | x :: l' => let! y := f x in let! ys := mapM f l' in ret (y :: ys)
  end.

(** [v.map(f)]: only an array has a callable [map]. *)
Definition call_map {B} (v : JsVal) (f : JsVal -> M B) : M (list B) :=
  match v with
  | JArr l => mapM f l
  | _ => throw (TypeError "map")
  end.

(** [l.find(p)] with a callback that may throw: the first element on
    which [p] is true; [p] is not called on an empty array. *)
Fixpoint findM {A} (p : A -> M bool) (l : list A) : M (option A) :=
  match l with
  | [] => ret None
  | x :: l' => let! b := p x in if b then ret (Some x) else findM p l'
  end.

End Fx.

(* ===================================================================== *)
(** ** services/marketData.ts *)
(* ===================================================================== *)

Module MarketData.
Import Js Fx.

(** [interface MarketSnapshot].  [data] holds the [Stock] objects as they
    are at run time. *)
Record MarketSnapshot := {
  label : string;
  timestamp : TimeValue;
  data : list Obj
}.

(** What [await fetch(DATA_URL)] and [await response.json()] deliver. *)
Record Response := {
  ok : bool;
  statusText : string;
  json : JsError + JsVal      (* [inl]: the body is not JSON *)
}.

Inductive FetchOutcome :=
| Rejected (e : JsError)      (* the network request failed *)
| Resolved (r : Response).

Definition megaCaps : list string :=
  ["AAPL"; "MSFT"; "NVDA"; "GOOG"; "GOOGL"; "AMZN"].
Definition largeCaps : list string :=
  ["META"; "TSLA"; "AVGO"; "LLY"; "V"; "JPM"; "WMT"; "MA"].

Definition liveLabel : string := "Now (Live)".

Section WithHost.
Variable h : Host.

(** [(base + Math.random() * spread).toFixed(2)]. *)
Definition randomCap (base spread : float) : M string :=
  let! r := random h in
  ret (toFixed2 h (base + r * spread)%float).

Definition generateMarketCap (ticker sector : JsVal) : M string :=
  if includes megaCaps ticker then randomCap 2000 1000
  else if includes largeCaps ticker then randomCap 500 500
  else if strict_eq sector (JStr "Technology") then randomCap 100 300
  else if strict_eq sector (JStr "Healthcare") then randomCap 80 200
  else randomCap 50 150.

(** [String(item.k)]. *)
Definition getString (item : JsVal) (k : string) : M JsVal :=
  let! v := get item k in
  let! s := convert (ToString h v) in
  ret (JStr s).

(** The callback of [rawData.stockData.map]: one live [Stock] per raw
    record. *)
Definition normalizeItem (item : JsVal) : M Obj :=
  let! mc := get item "market_cap" in
  let! market_cap :=
    (if truthy mc then getString item "market_cap"
     else
       let! ticker := get item "ticker" in
       let! sector := get item "sector" in
       let! cap := generateMarketCap ticker sector in
       ret (JStr cap)) in
  let! sma_50 := getString item "sma_50" in
  let! sma_200 := getString item "sma_200" in
  let! current_price := getString item "current_price" in
  let! daily_change := getString item "daily_change" in
  let! strategy_return := getString item "strategy_return" in
  let! rsi := getString item "rsi" in
  let! volume := getString item "volume" in
  ret (<["volume" := volume]>
       (<["rsi" := rsi]>
       (<["strategy_return" := strategy_return]>
       (<["daily_change" := daily_change]>
       (<["current_price" := current_price]>
       (<["sma_200" := sma_200]>
       (<["sma_50" := sma_50]>
       (<["market_cap" := market_cap]>
       (own_props item))))))))).

(** The callback of [snap.stocks.map]: the live stock of the same ticker
    overridden by the partial record, or [null] when there is none. *)
Definition mergeStock (liveStocks : list Obj) (partialStock : JsVal)
  : M (option Obj) :=
  let! baseStock :=
    findM (fun s =>
             let! ticker := get partialStock "ticker" in
             ret (strict_eq (field s "ticker") ticker))
          liveStocks in
  match baseStock with
  | None => ret None
  | Some baseStock =>
      let! sma_50 := getString partialStock "sma_50" in
      let! sma_200 := getString partialStock "sma_200" in
      let! status := get partialStock "status" in
      let! signal := get partialStock "signal" in
      ret (Some
             (<["signal" := signal]>
              (<["status" := status]>
              (<["sma_200" := sma_200]>
              (<["sma_50" := sma_50]>
              (own_props partialStock ∪ baseStock))))))
  end.

(** [.filter(Boolean)] on the merged records. *)
Definition filterBoolean (l : list (option Obj)) : list Obj := omap id l.

(** The callback of [historicalSnapshots.map]. *)
Definition processSnapshot (liveStocks : list Obj) (snap : JsVal)
  : M MarketSnapshot :=
  let! ts := get snap "timestamp" in
  let! date := convert (Date_new h ts) in
  let label := Date_toLocaleTimeString h date in
  let! stocks := get snap "stocks" in
  let! merged := call_map stocks (mergeStock liveStocks) in
  ret {| label := label; timestamp := date; data := filterBoolean merged |}.

(** The comparator [(a, b) => a.timestamp - b.timestamp]. *)
Definition byTimestamp (a b : MarketSnapshot) : option Z :=
  time_sub (timestamp a) (timestamp b).

(** The body of the [try] block; [now] is what [Date.now()] returns. *)
Definition fetchHistory_try (outcome : FetchOutcome) (now : Z)
  : M (list MarketSnapshot) :=
  match outcome with
  | Rejected e => throw e
  | Resolved response =>
      if negb (ok response) then
        throw (HttpError ("Failed to fetch data: " +:+ statusText response))
      else
        match json response with
        | inl e => throw e
        | inr rawData =>
            let! stockData := get rawData "stockData" in
            let! liveStocks := call_map stockData normalizeItem in
            let! snaps := get rawData "historicalSnapshots" in
            let! history :=
              call_map (if truthy snaps then snaps else JArr [])
                       (processSnapshot liveStocks) in
            let liveSnapshot :=
              {| label := liveLabel; timestamp := Some now;
                 data := liveStocks |} in
            ret (sort byTimestamp (history ++ [liveSnapshot]))
        end
  end.

Definition fetchHistory (outcome : FetchOutcome) (now : Z)
  : M (list MarketSnapshot) :=
  try_catch (fetchHistory_try outcome now)
    (fun error =>
       let! _ := console_error "Error fetching market history:" error in
       ret []).

End WithHost.
End MarketData.

(* ===================================================================== *)
(** ** hooks/useMarketData.ts *)
(* ===================================================================== *)

Module useMarketData.
Import Js Fx MarketData.

(** The four [useState] cells of [useMarketData].  The interval of the
    playback effect exists exactly while [isPlaying] is true (the effect
    creates it when [isPlaying] becomes true and clears it otherwise), so
    it has no cell of its own: [tick] is the interval's callback and does
    nothing when there is no interval. *)
Record State := {
  history : list MarketSnapshot;
  timeIndex : Z;                (* 0 = oldest, length - 1 = newest (live) *)
  loading : bool;
  isPlaying : bool
}.

Definition initial : State :=
  {| history := []; timeIndex := 0; loading := true; isPlaying := false |}.

Definition setHistory (snapshots : list MarketSnapshot) (st : State) : State :=
  {| history := snapshots; timeIndex := timeIndex st;
     loading := loading st; isPlaying := isPlaying st |}.

Definition setTimeIndex (i : Z) (st : State) : State :=
  {| history := history st; timeIndex := i;
     loading := loading st; isPlaying := isPlaying st |}.

Definition setLoading (b : bool) (st : State) : State :=
  {| history := history st; timeIndex := timeIndex st;
     loading := b; isPlaying := isPlaying st |}.

Definition setIsPlaying (b : bool) (st : State) : State :=
  {| history := history st; timeIndex := timeIndex st;
     loading := loading st; isPlaying := b |}.

Definition length_Z {A} (l : list A) : Z := Z.of_nat (length l).

(** [loadData], given the snapshots that [fetchHistory] resolved with. *)
Definition loaded (snapshots : list MarketSnapshot) (st : State) : State :=
  setTimeIndex (length_Z snapshots - 1) (setHistory snapshots st).

(** [loadData]: the mount effect. *)
Definition loadData (h : Host) (outcome : FetchOutcome) (now : Z) (st : State)
  : M State :=
  let! st' :=
    try_catch
      (let! snapshots := fetchHistory h outcome now in
       ret (loaded snapshots st))
      (fun error =>
         let! _ := console_error "Failed to fetch data" error in
         ret st) in
  ret (setLoading false st').

(** The interval callback, [setTimeIndex(prev => ...)]: when
    [prev >= history.length - 1] it calls [setIsPlaying(false)] and returns
    [prev] ("Stop at end"), otherwise it returns [prev + 1]. *)
Definition tick (st : State) : State :=
  if isPlaying st then
    if length_Z (history st) - 1 <=? timeIndex st
    then setIsPlaying false st
    else setTimeIndex (timeIndex st + 1) st
  else st.

Fixpoint ticks (n : nat) (st : State) : State :=
  match n with
  | O => st
  | S n' => ticks n' (tick st)
  end.

(** [stocks]: the entity list of the selected snapshot. *)
Definition stocks (st : State) : list Obj :=
  if length_Z (history st) =? 0 then []
  else
    match at_index (history st) (timeIndex st) with
    | Some snapshot => data snapshot      (* an array is truthy *)
    | None => []
    end.

(** [history[timeIndex]?.label || 'Loading...']. *)
Definition currentSnapshotLabel (st : State) : string :=
  match at_index (history st) (timeIndex st) with
  | Some snapshot =>
      if truthy (JStr (label snapshot)) then label snapshot else "Loading..."
  | None => "Loading..."
  end.

Definition isTimeTraveling (st : State) : bool :=
  (0 <? length_Z (history st)) && (timeIndex st <? length_Z (history st) - 1).

End useMarketData.

(* ===================================================================== *)
(** ** components/TimeTravelFooter.tsx *)
(* ===================================================================== *)

Module TimeTravelFooter.
Import Js Fx MarketData useMarketData.

Definition dayMs : Z := 24 * 60 * 60 * 1000.

(** The snapshots of the last 24 hours; [now] is [Date.now()]. *)
Definition filteredHistory (history : list MarketSnapshot) (now : Z)
  : list MarketSnapshot :=
  if length_Z history =? 0 then []
  else
    let twentyFourHoursAgo := now - dayMs in
    filter (fun snapshot => time_ge (timestamp snapshot) twentyFourHoursAgo = true)
           history.

Definition sameTime (a : MarketSnapshot) (s : MarketSnapshot) : bool :=
  time_eq (timestamp s) (timestamp a).

(** The index of the selected snapshot within the window. *)
Definition filteredTimeIndex (history : list MarketSnapshot) (timeIndex : Z)
                             (filteredHistory : list MarketSnapshot) : Z :=
  if length_Z filteredHistory =? 0 then 0
  else
    match at_index history timeIndex with
    | None => length_Z filteredHistory - 1
    | Some currentSnapshot =>
        let indexInFiltered := findIndex (sameTime currentSnapshot) filteredHistory in
        if 0 <=? indexInFiltered then indexInFiltered
        else length_Z filteredHistory - 1
    end.

(** The slider's [onChange]: from a window index back to the store. *)
Definition handleTimeIndexChange (history filteredHistory : list MarketSnapshot)
                                 (filteredIdx : Z) (st : State)
  : Completion State :=
  if length_Z filteredHistory =? 0 then Normal st
  else
    match at_index filteredHistory filteredIdx with
    | None => Throw (TypeError "timestamp")
    | Some snapshot =>
        let originalIdx := findIndex (sameTime snapshot) history in
        if 0 <=? originalIdx
        then Normal (setTimeIndex originalIdx (setIsPlaying false st))
        else Normal st
    end.

(** The play/pause and "Reset to Live" buttons. *)
Definition togglePlaying (st : State) : State :=
  setIsPlaying (negb (isPlaying st)) st.

Definition resetToLive (st : State) : State :=
  setTimeIndex (length_Z (useMarketData.history st) - 1) (setIsPlaying false st).

Definition displayHistory (history filteredHistory : list MarketSnapshot)
  : list MarketSnapshot :=
  if 0 <? length_Z filteredHistory then filteredHistory else history.

Definition displayIndex (filteredHistory : list MarketSnapshot)
                        (filteredTimeIndex timeIndex : Z) : Z :=
  if 0 <? length_Z filteredHistory then filteredTimeIndex else timeIndex.

Definition maxIndex (displayHistory : list MarketSnapshot) : Z :=
  if 0 <? length_Z displayHistory then length_Z displayHistory - 1 else 0.

End TimeTravelFooter.

(* ===================================================================== *)
(** ** utils/analytics.ts *)
(* ===================================================================== *)

Module Analytics.
Import Js.

Record Sentiment := {
  bullish : nat;
  bearish : nat;
  percent : float
}.

Definition isBullish (s : Obj) : bool :=
  strict_eq (field s "status") (JStr "BULLISH").

(** Counts are array lengths (below 2^32), which [of_nat] converts
    exactly; the quotient, the product and the rounding are those of
    binary64, as in JavaScript. *)
Definition calculateSentiment (stocks : list Obj) : Sentiment :=
  if (length stocks =? 0)%nat then
    {| bullish := 0; bearish := 0; percent := 0 |}
  else
    let bullishCount := length (filter (fun s => isBullish s = true) stocks) in
    let percent :=
      Math_round ((of_nat bullishCount / of_nat (length stocks)) * 100)%float in
    {| bullish := bullishCount;
       bearish := length stocks - bullishCount;
       percent := percent |}.

End Analytics.

(* ===================================================================== *)
(** ** A host and documents for the examples *)
(* ===================================================================== *)

Module Fixture.
Import Js Fx MarketData.

Definition two_digits (n : Z) : string :=
  (if n <? 10 then "0" else "") +:+ pretty n.

(** The fraction digits of [r / d], for [0 <= r < d] and [d] a power of two
    (the expansion is finite). *)
Fixpoint fraction_digits (fuel : nat) (r d : Z) : string :=
  match fuel with
  | O => ""
  | S fuel' =>
      if r =? 0 then ""
      else pretty (10 * r / d) +:+ fraction_digits fuel' (10 * r mod d) d
  end.

(** The exact decimal expansion of a Number.  ECMAScript prints the
    shortest digits that read back as the same Number; the two agree on
    the integers up to 2^53 and on the short binary fractions (1.5, 0.25)
    that the examples below convert. *)
Definition exact_decimal (x : float) : string :=
  match Prim2SF x with
  | S754_zero _ => "0"
  | S754_infinity s => if s then "-Infinity" else "Infinity"
  | S754_nan => "NaN"
  | S754_finite s m e =>
      (if s then "-" else "") +:+
      (if 0 <=? e then pretty (Z.pos m * 2 ^ e)
       else
         let d := 2 ^ (- e) in
         let r := Z.pos m mod d in
         pretty (Z.pos m / d) +:+
         (if r =? 0 then "" else "." +:+ fraction_digits (Z.to_nat (- e)) r d))
  end.

(** A host in the UTC time zone with a 24 hour locale, whose [Date.parse]
    accepts no string (the examples pass it none that a host accepts) and
    whose [Math.random] always returns 0.5. *)
Definition host : Host :=
  {| Number_toString := exact_decimal;
     Date_parse := fun _ => None;
     Date_toLocaleTimeString := fun t =>
       match t with
       | None => "Invalid Date"
       | Some ms =>
           two_digits ((ms / 3600000) mod 24) +:+ ":" +:+
           two_digits ((ms / 60000) mod 60)
       end;
     Math_random := fun _ => 0.5%float |}.

Definition world0 : World := {| random_calls := 0; console := [] |}.

(** An object literal. *)
Definition object (l : list (string * JsVal)) : JsVal := JObj (list_to_map l).

Definition respond (rawData : JsVal) : FetchOutcome :=
  Resolved {| ok := true; statusText := "OK"; json := inr rawData |}.

Definition now0 : Z := 1700000000000.

Definition rawStock (ticker sector status : string) (sma_50 : float) : JsVal :=
  object [("ticker", JStr ticker); ("sector", JStr sector);
          ("status", JStr status); ("signal", JStr "NONE");
          ("current_price", JNum 150); ("daily_change", JNum 1.5);
          ("volume", JNum 1000); ("strategy_return", JNum 2);
          ("signal_date", JStr "2025-11-01"); ("rsi", JNum 55);
          ("sma_50", JNum sma_50); ("sma_200", JNum 140)].

Definition delta (ticker status : string) (sma_50 : float) : JsVal :=
  object [("ticker", JStr ticker); ("status", JStr status);
          ("signal", JStr "GOLDEN_CROSS");
          ("sma_50", JNum sma_50); ("sma_200", JNum 139)].

Definition group (timestamp : JsVal) (stocks : list JsVal) : JsVal :=
  object [("timestamp", timestamp); ("stocks", JArr stocks)].

Definition document (stockData historicalSnapshots : list JsVal) : JsVal :=
  object [("stockData", JArr stockData);
          ("historicalSnapshots", JArr historicalSnapshots)].

Definition baseline : list JsVal :=
  [rawStock "AAPL" "Technology" "BULLISH" 145;
   rawStock "PFE" "Healthcare" "BEARISH" 30].

(** A two-snapshot history with playback running at the older one. *)
Definition older : MarketSnapshot :=
  {| label := "19:26"; timestamp := Some 1699990000000; data := [] |}.
Definition newest : MarketSnapshot :=
  {| label := liveLabel; timestamp := Some now0; data := [] |}.
Definition playingAtOldest : useMarketData.State :=
  {| useMarketData.history := [older; newest]; useMarketData.timeIndex := 0;
     useMarketData.loading := false; useMarketData.isPlaying := true |}.

(** A snapshot two days older than [now0]. *)
Definition stale : MarketSnapshot :=
  {| label := "22:13"; timestamp := Some (now0 - 2 * TimeTravelFooter.dayMs);
     data := [] |}.

(** Two groups, the later one first. *)
Definition shuffled_document : JsVal :=
  document baseline
    [group (JNum 1699990000000) [delta "AAPL" "BEARISH" 144];
     group (JNum 1699980000000) [delta "PFE" "BULLISH" 31]].

(** A partial record for a ticker that the baseline does not have. *)
Definition unknown : JsVal := delta "ZZZ" "BULLISH" 1.

Definition baselineOnly : Obj := list_to_map [("stockData", JArr baseline)].
Definition groupAt : Obj := list_to_map [("timestamp", JNum 1699990000000)].

(** A delta that also carries a price. *)
Definition repriced_document : JsVal :=
  document baseline
    [group (JNum 1699990000000)
       [object [("ticker", JStr "AAPL"); ("status", JStr "BEARISH");
                ("signal", JStr "DEATH_CROSS");
                ("sma_50", JNum 144); ("sma_200", JNum 139);
                ("current_price", JNum 100)]]].

(** A baseline whose first record has no ticker. *)
Definition anonymous_document : JsVal :=
  document [object [("sector", JStr "Technology")];
            rawStock "AAPL" "Technology" "BULLISH" 145] [].

(** A group whose timestamp is a string that is no date. *)
Definition unparsed_document : JsVal :=
  document baseline
    [group (JStr "not a timestamp") [delta "AAPL" "BEARISH" 144]].

(** An entity that has a status and nothing else, and a list of forty of
    them, 23 bullish. *)
Definition tagged (status : string) : Obj := list_to_map [("status", JStr status)].
Definition forty : list Obj :=
  replicate 23 (tagged "BULLISH") ++ replicate 17 (tagged "BEARISH").

(** A document whose only raw record is [null], and one whose only raw
    record has an object with an own [toString] property as its [sma_50];
    both with an empty history. *)
Definition null_record_document : JsVal := document [JNull] [].
Definition opaque : JsVal := object [("toString", JNum 1)].
Definition opaque_record_document : JsVal :=
  document [object [("ticker", JStr "AAPL"); ("sma_50", opaque)]] [].

End Fixture.

(* ===================================================================== *)
(** ** The properties, as predicates on the embedding *)
(* ===================================================================== *)

Module Props.
Import Js Fx MarketData.

(** The store of a completed fetch (nothing, had it thrown). *)
Definition store_of (r : Completion (list MarketSnapshot) * World)
  : list MarketSnapshot :=
  match r with
  | (Normal store, _) => store
  | (Throw _, _) => []
  end.

Definition world_of {A} (r : Completion A * World) : World := snd r.

(** [a.timestamp <= b.timestamp], as JavaScript evaluates it. *)
Definition notAfter (a b : MarketSnapshot) : Prop :=
  time_le (timestamp a) (timestamp b) = true.

(** The sort invariant: [store[i].timestamp <= store[i+1].timestamp] for
    every [i] with [0 <= i < length - 1]. *)
Definition ascending (store : list MarketSnapshot) : Prop :=
  forall (i : nat) a b,
    store !! i = Some a -> store !! (S i) = Some b -> notAfter a b.

(** The timestamp is a number (not [NaN]). *)
Definition timed (s : MarketSnapshot) : Prop := is_Some (timestamp s).

(** The world after the [catch] block of [fetchHistory] logged [e]. *)
Definition logged (e : JsError) (w : World) : World :=
  {| random_calls := random_calls w;
     console := console w ++ [("Error fetching market history:", e)] |}.

(** The keys that [normalizeItem] sets. *)
Definition normalizedKeys : list string :=
  ["market_cap"; "sma_50"; "sma_200"; "current_price"; "daily_change";
   "strategy_return"; "rsi"; "volume"].

(** The live stock [o] carries the ticker of the raw record [item]. *)
Definition sameTicker (item : JsVal) (o : Obj) : Prop :=
  field o "ticker" = prop item "ticker".

(** A raw record: any value of the document but [null]. *)
Definition isRecord (item : JsVal) : Prop := nullish item = false.

(** The tickers of an entity list. *)
Definition tickers (stocks : list Obj) : list JsVal :=
  map (fun o => field o "ticker") stocks.

(** The live snapshot built from the baseline [liveStocks] at [now]. *)
Definition liveSnapshot (now : Z) (liveStocks : list Obj) : MarketSnapshot :=
  {| label := liveLabel; timestamp := Some now; data := liveStocks |}.

(** A successful response carrying the document [rawData]. *)
Definition success (text : string) (rawData : JsVal) : FetchOutcome :=
  Resolved {| ok := true; statusText := text; json := inr rawData |}.

(** The partial record [p] matches no stock of [stocks] by ticker
    ([find] returns [undefined]). *)
Definition unmatched (p : JsVal) (stocks : list Obj) : Prop :=
  Forall (fun s => strict_eq (field s "ticker") (prop p "ticker") = false) stocks.

(** The same, on the raw baseline records. *)
Definition unmatchedRaw (p : JsVal) (items : list JsVal) : Prop :=
  Forall (fun item => strict_eq (prop item "ticker") (prop p "ticker") = false) items.

(** A group [m] with the partial records [stocks]. *)
Definition withStocks (m : Obj) (stocks : list JsVal) : JsVal :=
  JObj (<["stocks" := JArr stocks]> m).

(** A document [d] with the groups [snaps]. *)
Definition withSnapshots (d : Obj) (snaps : list JsVal) : JsVal :=
  JObj (<["historicalSnapshots" := JArr snaps]> d).

(** The keys that the merged object literal sets after the two spreads. *)
Definition overriddenKeys : list string :=
  ["sma_50"; "sma_200"; "status"; "signal"].

(** [String(v)] completes: [v] is no object with an own [toString]
    property, and no array that holds one where the conversion of the array
    reaches it. *)
Fixpoint convertible (v : JsVal) : bool :=
  match v with
  | JArr l =>
      (fix all (l : list JsVal) : bool :=
         match l with
         | [] => true
         | e :: l' => convertible e && all l'
         end) l
  | JObj m =>
      match m !! "toString" with
      | Some _ => false
      | None => true
      end
  | _ => true
  end.

(** The text of a value that converts. *)
Definition textOf (h : Host) (v : JsVal) : string := default "" (ToString h v).

(** The time value of a timestamp that converts. *)
Definition timeOf (h : Host) (v : JsVal) : TimeValue := default None (Date_new h v).

(** A raw record that normalisation can convert: not [null], and each of
    the eight properties that are passed to [String] is convertible (a
    property the record lacks is: it is [undefined]). *)
Definition normalizable (item : JsVal) : Prop :=
  isRecord item /\
  Forall (fun k => convertible (prop item k) = true) normalizedKeys.

(** A partial record that the merger can convert: not [null], with
    convertible moving averages. *)
Definition mergeable (p : JsVal) : Prop :=
  isRecord p /\
  convertible (prop p "sma_50") = true /\
  convertible (prop p "sma_200") = true.

(** The partial record [p] has a baseline stock of its ticker. *)
Definition matched (liveStocks : list Obj) (p : JsVal) : bool :=
  existsb (fun b => strict_eq (field b "ticker") (prop p "ticker")) liveStocks.

(** The baseline stock that a partial record is merged with: the first
    one of the record's ticker. *)
Definition baseOf (liveStocks : list Obj) (p : JsVal) : option Obj :=
  List.find (fun b => strict_eq (field b "ticker") (prop p "ticker")) liveStocks.

(** The object literal of [mergeStock], for the baseline stock [b] and the
    partial record [p]. *)
Definition overlay (h : Host) (b : Obj) (p : JsVal) : Obj :=
  <["signal" := prop p "signal"]>
  (<["status" := prop p "status"]>
  (<["sma_200" := JStr (textOf h (prop p "sma_200"))]>
  (<["sma_50" := JStr (textOf h (prop p "sma_50"))]>
  (own_props p ∪ b)))).

(** The entity [e] is the baseline entity [b] overridden by the partial
    record [p]: same ticker; status and signal are those of [p]; the moving
    averages are those of [p], converted to strings; every other property
    is that of [p] when [p] has it and is inherited from [b] when not. *)
Definition mergedFrom (h : Host) (b : Obj) (p : JsVal) (e : Obj) : Prop :=
  strict_eq (field b "ticker") (field e "ticker") = true /\
  e !! "status" = Some (prop p "status") /\
  e !! "signal" = Some (prop p "signal") /\
  (exists s, ToString h (prop p "sma_50") = Some s /\
             e !! "sma_50" = Some (JStr s)) /\
  (exists s, ToString h (prop p "sma_200") = Some s /\
             e !! "sma_200" = Some (JStr s)) /\
  (forall k, k ∉ overriddenKeys ->
             e !! k = match own_props p !! k with
                      | Some v => Some v
                      | None => b !! k
                      end).

(** The snapshot [s] is built from the group [g]: its entities are, in the
    group's order, one merged entity for each partial record of the group
    that has a baseline stock of its ticker, merged with the first such
    stock. *)
Definition fromGroup (h : Host) (liveStocks : list Obj)
                     (g : JsVal) (s : MarketSnapshot) : Prop :=
  exists stocks,
    prop g "stocks" = JArr stocks /\
    Forall2 (fun p e => exists b, baseOf liveStocks p = Some b /\
                                  b ∈ liveStocks /\ mergedFrom h b p e)
            (filter (fun p => matched liveStocks p = true) stocks)
            (data s).

(** The groups of a document: [rawData.historicalSnapshots || []]. *)
Definition groupsOf (rawData : JsVal) : JsVal :=
  if truthy (prop rawData "historicalSnapshots")
  then prop rawData "historicalSnapshots" else JArr [].

(** [t] lies in the 24 hour window that ends at [now]. *)
Definition inWindow (now t : Z) : Prop := now - TimeTravelFooter.dayMs <= t <= now.

(** The entity carries the bullish tag: it has a [status], and that is
    the string ['BULLISH']. *)
Definition bullishTag (s : Obj) : bool :=
  match s !! "status" with
  | Some (JStr tag) => String.eqb tag "BULLISH"
  | _ => false
  end.

(** The number of entities that carry the bullish tag. *)
Fixpoint countBullish (stocks : list Obj) : nat :=
  match stocks with
  | [] => 0
  | s :: stocks' => (if bullishTag s then 1 else 0) + countBullish stocks'
  end.

(** The percentage of [b] out of [n] rounded to the nearest integer in
    exact arithmetic, a tie going up: the largest integer not above
    [100 * b / n + 1/2]; 0 when [n] is 0. *)
Definition exactPercent (b n : nat) : Z :=
  if (n =? 0)%nat then 0
  else (200 * Z.of_nat b + Z.of_nat n) / (2 * Z.of_nat n).

(** The percentage as [calculateSentiment] computes it, in binary64. *)
Definition floatPercent (b n : nat) : float :=
  Math_round ((of_nat b / of_nat n) * 100)%float.

(** Whether the two are the same Number for every count [b <= n]. *)
Definition percentsAgree (n : nat) : bool :=
  forallb (fun b => PrimFloat.Leibniz.eqb (floatPercent b n) (of_Z (exactPercent b n)))
          (seq 0 (S n)).

End Props.

(* ===================================================================== *)
(** ** Strings and sets of the filter hooks *)
(* ===================================================================== *)

Module JsText.
Import Js Fx.

(** [String.prototype.toLowerCase] on one character: the letters A to Z,
    and the capital letters of the Latin-1 range (U+00C0 to U+00DE, the
    multiplication sign U+00D7 apart), move up by 32. *)
Definition lowerChar (c : Ascii.ascii) : Ascii.ascii :=
  let n := Ascii.nat_of_ascii c in
  if ((65 <=? n) && (n <=? 90)
      || (192 <=? n) && (n <=? 222) && negb (n =? 215))%nat
  then Ascii.ascii_of_nat (n + 32)
  else c.

Fixpoint toLowerCase (s : string) : string :=
  match s with
  | EmptyString => EmptyString
  | String c s' => String (lowerChar c) (toLowerCase s')
  end.

(** [s.includes(search)]: [search] occurs in [s]. *)
Fixpoint includesText (s search : string) : bool :=
  if String.prefix search s then true
  else
    match s with
    | EmptyString => false
    | String _ s' => includesText s' search
    end.

(** [v.toLowerCase()] on a run-time value: only a string has the method;
    reading it from [undefined] or [null], or calling it on another value,
    is a [TypeError]. *)
Definition callToLowerCase (v : JsVal) : Completion string :=
  match v with
  | JStr s => Normal (toLowerCase s)
  | _ => Throw (TypeError "toLowerCase")
  end.

(** SameValueZero, the equality of [Set] and of [includes]: [===], except
    that [NaN] is the same value as [NaN].  (Two arrays or objects are the
    same value only when they are one reference; the model keeps no
    references and takes them to be distinct.) *)
Definition sameValueZero (a b : JsVal) : bool :=
  match a, b with
  | JNum x, JNum y => PrimFloat.eqb x y || PrimFloat.is_nan x && PrimFloat.is_nan y
  | _, _ => strict_eq a b
  end.

(** [Array.from(new Set(l))], given the values already in the set: each
    value once, in the order of first insertion. *)
Fixpoint setAdd (seen : list JsVal) (l : list JsVal) : list JsVal :=
  match l with
  | [] => seen
  | x :: l' =>
      setAdd (if existsb (sameValueZero x) seen then seen else seen ++ [x]) l'
  end.

(** [l.filter(p)] with a callback that may throw: the first exception ends
    the loop. *)
Fixpoint filterC {A} (p : A -> Completion bool) (l : list A) : Completion (list A) :=
  match l with
  | [] => Normal []
  | x :: l' =>
      match p x with
      | Throw e => Throw e
      | Normal b =>
          match filterC p l' with
          | Throw e => Throw e
          | Normal r => Normal (if b then x :: r else r)
          end
      end
  end.

End JsText.

(* ===================================================================== *)
(** ** hooks/useStockFilters.ts *)
(* ===================================================================== *)

Module useStockFilters.
Import Js Fx JsText.

(** [type FilterStatus = 'ALL' | 'BULLISH' | 'BEARISH']. *)
Inductive FilterStatus := ALL | BULLISH | BEARISH.

Definition statusText (f : FilterStatus) : string :=
  match f with ALL => "ALL" | BULLISH => "BULLISH" | BEARISH => "BEARISH" end.

(** The three [useState] cells of the hook. *)
Record Filters := {
  searchTerm : string;
  statusFilter : FilterStatus;
  selectedSector : string
}.

Definition initialFilters : Filters :=
  {| searchTerm := ""; statusFilter := ALL; selectedSector := "All" |}.

(** [sectors]: ['All'] and then the sectors of the stocks, each once. *)
Definition sectors (stocks : list Obj) : list JsVal :=
  JStr "All" :: setAdd [] (map (fun s => field s "sector") stocks).

(** The callback of [stocks.filter]: [matchesSearch && matchesSector &&
    matchesStatus], the three computed in this order before the
    conjunction. *)
Definition matches (f : Filters) (stock : Obj) : Completion bool :=
  match callToLowerCase (field stock "ticker") with
  | Throw e => Throw e
  | Normal ticker =>
      let matchesSearch := includesText ticker (toLowerCase (searchTerm f)) in
      let matchesSector :=
        String.eqb (selectedSector f) "All"
        || strict_eq (field stock "sector") (JStr (selectedSector f)) in
      let matchesStatus :=
        String.eqb (statusText (statusFilter f)) "ALL"
        || strict_eq (field stock "status") (JStr (statusText (statusFilter f))) in
      Normal (matchesSearch && matchesSector && matchesStatus)
  end.

Definition filteredStocks (f : Filters) (stocks : list Obj) : Completion (list Obj) :=
  filterC (matches f) stocks.

End useStockFilters.

(* ===================================================================== *)
(** ** hooks/useWatchlist.ts *)
(* ===================================================================== *)

Module useWatchlist.

(** The updater of [toggleWatchlist], on [watchlist : string[]] and
    [ticker : string] as the hook declares them:
    [prev.includes(ticker) ? prev.filter(t => t !== ticker)
                           : [...prev, ticker]]. *)
Definition toggleWatchlist (ticker : string) (prev : list string) : list string :=
  if existsb (String.eqb ticker) prev
  then filter (fun t => t <> ticker) prev
  else prev ++ [ticker].

End useWatchlist.

(* ===================================================================== *)
(** ** App.tsx *)
(* ===================================================================== *)

Module App.
Import Js useStockFilters.

(** [filteredStocks.filter(s => watchlist.includes(s.ticker))]. *)
Definition watchlistStocks (filteredStocks : list Obj) (watchlist : list string)
  : list Obj :=
  filter (fun s => includes watchlist (field s "ticker") = true) filteredStocks.

(** [filteredStocks.filter(s => !watchlist.includes(s.ticker))]. *)
Definition otherStocks (filteredStocks : list Obj) (watchlist : list string)
  : list Obj :=
  filter (fun s => negb (includes watchlist (field s "ticker")) = true) filteredStocks.

(** The "Clear filters" button: [setSearchTerm(''); setStatusFilter('ALL');
    setSelectedSector('All')]. *)
Definition clearFilters (f : Filters) : Filters :=
  {| searchTerm := ""; statusFilter := ALL; selectedSector := "All" |}.

End App.

(* ===================================================================== *)
(** ** Further predicates *)
(* ===================================================================== *)

Module MoreProps.
Import Js Fx MarketData Props.

(** A computation that writes nothing to the console and throws nothing
    but a [TypeError]. *)
Definition quiet {A} (c : M A) : Prop :=
  forall w r w', c w = (r, w') ->
    console w' = console w /\
    match r with
    | Throw e => exists k, e = TypeError k
    | Normal _ => True
    end.

(** A group of the shape the feed documents: an object (anything but
    [null]) with a convertible [timestamp], whose [stocks] is an array of
    partial records with convertible moving averages. *)
Definition wellFormedGroup (g : JsVal) : Prop :=
  isRecord g /\
  convertible (prop g "timestamp") = true /\
  exists stocks, prop g "stocks" = JArr stocks /\ Forall mergeable stocks.

(** The group [g] has no array of [stocks] (or is [null]). *)
Definition malformedGroup (g : JsVal) : Prop :=
  nullish g = true \/ forall stocks, prop g "stocks" <> JArr stocks.

(** The seven properties that [normalizeItem] converts with [String]. *)
Definition textKeys : list string :=
  ["sma_50"; "sma_200"; "current_price"; "daily_change";
   "strategy_return"; "rsi"; "volume"].

(** What [mergeStock] returns for a partial record. *)
Definition mergeResult (h : Host) (liveStocks : list Obj) (p : JsVal) : option Obj :=
  match baseOf liveStocks p with
  | Some b => Some (overlay h b p)
  | None => None
  end.

(** The snapshot that [processSnapshot] builds from a group with the
    partial records [stocks]. *)
Definition snapshotOf (h : Host) (liveStocks : list Obj) (g : JsVal)
                      (stocks : list JsVal) : MarketSnapshot :=
  {| label := Date_toLocaleTimeString h (timeOf h (prop g "timestamp"));
     timestamp := timeOf h (prop g "timestamp");
     data := filterBoolean (map (mergeResult h liveStocks) stocks) |}.

(** The stock is not kept: [stockData] is no array, or holds a [null]. *)
Definition baselineDefect (rawData : JsVal) : Prop :=
  forall items, prop rawData "stockData" = JArr items ->
                exists item, item ∈ items /\ nullish item = true.

(** The object literal of [normalizeItem], given the market
    capitalisation. *)
Definition normalizedWith (h : Host) (item : JsVal) (market_cap : JsVal) : Obj :=
  <["volume" := JStr (textOf h (prop item "volume"))]>
  (<["rsi" := JStr (textOf h (prop item "rsi"))]>
  (<["strategy_return" := JStr (textOf h (prop item "strategy_return"))]>
  (<["daily_change" := JStr (textOf h (prop item "daily_change"))]>
  (<["current_price" := JStr (textOf h (prop item "current_price"))]>
  (<["sma_200" := JStr (textOf h (prop item "sma_200"))]>
  (<["sma_50" := JStr (textOf h (prop item "sma_50"))]>
  (<["market_cap" := market_cap]>
  (own_props item)))))))).

(** The snapshot is older than the 24 hour window that ends at [now], or
    has no numeric timestamp: the window filter rejects it. *)
Definition outsideWindow (now : Z) (s : MarketSnapshot) : Prop :=
  time_ge (timestamp s) (now - TimeTravelFooter.dayMs) = false.


(** The value is a string. *)
Definition isText (v : JsVal) : Prop := exists t, v = JStr t.

(** The stock's ticker is a string, as [interface Stock] declares it. *)
Definition hasTextTicker (s : Obj) : Prop := isText (field s "ticker").

(** The stock's sector is a string. *)
Definition hasTextSector (s : Obj) : Prop := isText (field s "sector").

(** The stock passes the sector and the status filter. *)
Definition passes (f : useStockFilters.Filters) (s : Obj) : Prop :=
  (useStockFilters.selectedSector f <> "All" ->
   field s "sector" = JStr (useStockFilters.selectedSector f)) /\
  (useStockFilters.statusFilter f <> useStockFilters.ALL ->
   field s "status"
   = JStr (useStockFilters.statusText (useStockFilters.statusFilter f))).

(** The filters that select one sector and nothing else. *)
Definition onlySector (sector : string) : useStockFilters.Filters :=
  {| useStockFilters.searchTerm := "";
     useStockFilters.statusFilter := useStockFilters.ALL;
     useStockFilters.selectedSector := sector |}.

(** The filters that search for one term and nothing else. *)
Definition onlySearch (term : string) : useStockFilters.Filters :=
  {| useStockFilters.searchTerm := term;
     useStockFilters.statusFilter := useStockFilters.ALL;
     useStockFilters.selectedSector := "All" |}.

End MoreProps.

(* ===================================================================== *)
(** ** Further example data *)
(* ===================================================================== *)

Module Examples.
Import Js Fx MarketData Props.

(** A stock as the filters read it. *)
Definition stock (ticker sector status : string) : Obj :=
  list_to_map [("ticker", JStr ticker); ("sector", JStr sector);
               ("status", JStr status)].

Definition aapl : Obj := stock "AAPL" "Technology" "BULLISH".
Definition msft : Obj := stock "MSFT" "Technology" "BEARISH".
Definition pfe : Obj := stock "PFE" "Healthcare" "BEARISH".

(** A stock without a ticker. *)
Definition unnamed : Obj := list_to_map [("sector", JStr "Technology")].

Definition board : list Obj := [aapl; msft; pfe].

(** Two historical groups. *)
Definition later : JsVal :=
  Fixture.group (JNum 1699990000000) [Fixture.delta "AAPL" "BEARISH" 144].
Definition earlier : JsVal :=
  Fixture.group (JNum 1699980000000) [Fixture.delta "PFE" "BULLISH" 31].

(** A group without [stocks]. *)
Definition stockless : JsVal := JObj Fixture.groupAt.

(** The document with the baseline of [Fixture] and the given groups. *)
Definition feed (snaps : list JsVal) : Obj :=
  list_to_map [("stockData", JArr Fixture.baseline);
               ("historicalSnapshots", JArr snaps)].

(** A partial record that carries its ticker only. *)
Definition bare : JsVal := Fixture.object [("ticker", JStr "AAPL")].


(** A store whose oldest snapshot is older than a day. *)
Definition threeDays : list MarketSnapshot :=
  [Fixture.stale; Fixture.older; Fixture.newest].

End Examples.

(* ===================================================================== *)
(** * Proofs *)
(* ===================================================================== *)

Import Js Fx MarketData Props MoreProps.

(** ** Arrays: [sort] *)

Section SortFacts.
Context {A : Type} (cmp : A -> A -> option Z).

Lemma sort_insert_perm x l : sort_insert cmp x l ≡ₚ x :: l.
Proof.
  induction l as [|y l IH]; simpl; [done|].
  destruct (comes_after (cmp x y)); [|done].
  rewrite IH. apply Permutation_swap.
Qed.

Lemma sort_perm l : sort cmp l ≡ₚ l.
Proof.
  induction l as [|x l IH]; simpl; [done|].
  rewrite sort_insert_perm. by rewrite IH.
Qed.
End SortFacts.

Lemma Sorted_adjacent {A} (R : A -> A -> Prop) (l : list A) :
  Sorted R l ->
  forall (i : nat) a b, l !! i = Some a -> l !! (S i) = Some b -> R a b.
Proof.
  induction 1 as [|x l Hs IH Hhd]; intros i a b Ha Hb; [done|].
  destruct i as [|i]; simpl in *.
  - injection Ha as ->. destruct Hhd as [|y l' Hxy]; [done|].
    simpl in Hb. by injection Hb as ->.
  - eauto.
Qed.

Lemma sort_insert_sorted (x : MarketSnapshot) l :
  timed x -> Forall timed l ->
  Sorted notAfter l -> Sorted notAfter (sort_insert byTimestamp x l).
Proof.
  intros [tx Hx] Hl Hs. induction Hs as [|y l Hs IH Hhd]; simpl.
  - repeat constructor.
  - apply Forall_cons in Hl as [[ty Hy] Hl].
    unfold byTimestamp at 1. rewrite Hx, Hy. simpl.
    destruct (0 <? tx - ty) eqn:Hlt.
    + constructor; [by apply IH|].
      assert (Hyx : notAfter y x).
      { unfold notAfter. rewrite Hx, Hy. simpl. lia. }
      destruct Hhd as [|z l Hyz]; simpl.
      * by constructor.
      * destruct (comes_after (byTimestamp x z)); by constructor.
    + constructor; [by constructor|].
      constructor. unfold notAfter. rewrite Hx, Hy. simpl. lia.
Qed.

Lemma sort_sorted (l : list MarketSnapshot) :
  Forall timed l -> Sorted notAfter (sort byTimestamp l).
Proof.
  induction 1 as [|x l Hx Hl IH]; simpl; [constructor|].
  apply sort_insert_sorted; [done| |done].
  by rewrite sort_perm.
Qed.

(** A [NaN] timestamp compares false with everything, so a store holding
    one, and another snapshot, is in no order ascending: the defect does not
    depend on how the engine sorts. *)
Lemma nan_never_ascending (store : list MarketSnapshot) (s : MarketSnapshot) :
  s ∈ store -> timestamp s = None -> (2 <= length store)%nat -> ~ ascending store.
Proof.
  intros Hin Hnan Hlen Hasc.
  apply list_elem_of_lookup in Hin as [i Hi].
  destruct i as [|i].
  - destruct store as [|a [|b store]]; simpl in *; try lia.
    injection Hi as ->.
    specialize (Hasc 0%nat s b eq_refl eq_refl).
    unfold notAfter in Hasc. by rewrite Hnan in Hasc.
  - destruct (store !! i) as [a|] eqn:Ha.
    + specialize (Hasc i a s Ha Hi). unfold notAfter in Hasc.
      rewrite Hnan in Hasc. by destruct (timestamp a).
    + apply lookup_ge_None in Ha. apply lookup_lt_Some in Hi. lia.
Qed.

(** ** The monad *)

Lemma bind_normal_inv {A B} (c : M A) (k : A -> M B) w b w' :
  bind c k w = (Normal b, w') ->
  exists a w1, c w = (Normal a, w1) /\ k a w1 = (Normal b, w').
Proof.
  unfold bind. destruct (c w) as [[a|e] w1]; [eauto|discriminate].
Qed.

Lemma bind_normal {A B} (c : M A) (k : A -> M B) w a w1 :
  c w = (Normal a, w1) -> bind c k w = k a w1.
Proof. unfold bind. by intros ->. Qed.

Lemma get_normal_inv v k w x w' :
  get v k w = (Normal x, w') -> nullish v = false /\ x = prop v k /\ w' = w.
Proof.
  unfold get. destruct (nullish v); [discriminate|].
  unfold ret. by intros [= <- <-].
Qed.

Lemma get_normal v k w : nullish v = false -> get v k w = (Normal (prop v k), w).
Proof. unfold get. by intros ->. Qed.

Lemma call_map_normal_inv {B} v (f : JsVal -> M B) w l w' :
  call_map v f w = (Normal l, w') ->
  exists items, v = JArr items /\ mapM f items w = (Normal l, w').
Proof. destruct v; try discriminate. eauto. Qed.

Ltac bind_inv H :=
  let a := fresh "a" in
  let w := fresh "w" in
  let H1 := fresh H in
  apply bind_normal_inv in H as (a & w & H1 & H).

(** ** Conversions *)

(** [String(v)] completes exactly on the convertible values. *)
Lemma ToString_convertible h : forall v, convertible v = true -> is_Some (ToString h v).
Proof.
  fix IH 1. intros [| |[|]|x|s|l|m]; simpl; try (intros _; by eexists).
  - intros Hl. apply fmap_is_Some. revert l Hl. fix IHl 1.
    intros [|e l]; simpl; [by eexists|].
    intros [He Hl]%andb_true_iff.
    destruct (IHl l Hl) as [ss ->].
    destruct (nullish e); [by eexists|].
    destruct (IH e He) as [t ->]. by eexists.
  - destruct (m !! "toString"); [done|by eexists].
Qed.

Lemma ToString_Some_convertible h : forall v, is_Some (ToString h v) -> convertible v = true.
Proof.
  fix IH 1. intros [| |[|]|x|s|l|m]; simpl; try done.
  - intros Hl. pose proof (proj1 (fmap_is_Some _ _) Hl) as Hl'. clear Hl.
    revert l Hl'. fix IHl 1.
    intros [|e l]; simpl; [done|]. intros Hs.
    assert (He : is_Some (if nullish e then Some "" else ToString h e)).
    { destruct (if nullish e then Some "" else ToString h e); [by eexists|].
      by destruct Hs. }
    apply andb_true_iff. split.
    + destruct (nullish e) eqn:Hn; [by destruct e|]. by apply IH.
    + apply IHl. destruct He as [t Ht]. rewrite Ht in Hs.
      match goal with
      | |- is_Some ?t => destruct t; [by eexists|by destruct Hs]
      end.
  - destruct (m !! "toString"); [by intros []|done].
Qed.

Lemma ToString_textOf h v : convertible v = true -> ToString h v = Some (textOf h v).
Proof.
  intros Hv. unfold textOf. by destruct (ToString_convertible h v Hv) as [s ->].
Qed.

Lemma ToString_None h v : convertible v = false -> ToString h v = None.
Proof.
  intros Hv. destruct (ToString h v) as [s|] eqn:Hs; [|done].
  rewrite (ToString_Some_convertible h v) in Hv; [done|by eexists].
Qed.

(** [new Date(v)] completes exactly on the convertible values as well. *)
Lemma Date_new_timeOf h v : convertible v = true -> Date_new h v = Some (timeOf h v).
Proof.
  intros Hv. unfold timeOf.
  destruct v; try done; unfold Date_new; by rewrite (ToString_textOf h _ Hv).
Qed.

Lemma Date_new_None h v : convertible v = false -> Date_new h v = None.
Proof.
  intros Hv. destruct v; try done; unfold Date_new; by rewrite (ToString_None h _ Hv).
Qed.

Lemma falsy_convertible v : truthy v = false -> convertible v = true.
Proof. by destruct v. Qed.

Lemma convert_normal_inv {A} (r : option A) w a w' :
  convert r w = (Normal a, w') -> r = Some a /\ w' = w.
Proof. destruct r; [|done]. unfold convert, ret. by intros [= <- <-]. Qed.

Lemma bind_convert {A B} (r : option A) a (f : A -> M B) w :
  r = Some a -> bind (convert r) f w = f a w.
Proof. by intros ->. Qed.

Lemma getString_normal_inv h v k w x w' :
  getString h v k w = (Normal x, w') ->
  nullish v = false /\ convertible (prop v k) = true /\
  x = JStr (textOf h (prop v k)) /\ w' = w.
Proof.
  intros H. unfold getString in H. bind_inv H.
  apply get_normal_inv in H0 as (Hv & -> & ->).
  bind_inv H. apply convert_normal_inv in H0 as (Hs & ->).
  unfold ret in H. injection H as <- <-.
  assert (Hc : convertible (prop v k) = true).
  { apply (ToString_Some_convertible h). by eexists. }
  repeat split; [done..|]. unfold textOf. by rewrite Hs.
Qed.

(** ** [fetchHistory]: what a completed call returned *)

(** A call that resolves with a non-empty store went through the whole
    [try] block: the baseline was normalised, the groups processed, and the
    store is the sorted concatenation. *)
Lemma fetchHistory_try_inv h outcome now w store w' :
  fetchHistory_try h outcome now w = (Normal store, w') ->
  exists response rawData items liveStocks w1 snaps history,
    outcome = Resolved response /\ ok response = true /\
    json response = inr rawData /\ nullish rawData = false /\
    prop rawData "stockData" = JArr items /\
    mapM (normalizeItem h) items w = (Normal liveStocks, w1) /\
    (if truthy (prop rawData "historicalSnapshots")
     then prop rawData "historicalSnapshots" else JArr []) = JArr snaps /\
    mapM (processSnapshot h liveStocks) snaps w1 = (Normal history, w') /\
    store = sort byTimestamp
              (history ++ [{| label := liveLabel; timestamp := Some now;
                              data := liveStocks |}]).
Proof.
  intros H. unfold fetchHistory_try in H.
  destruct outcome as [e|response]; [discriminate|].
  destruct (ok response) eqn:Hok; simpl in H; [|discriminate].
  destruct (json response) as [e|rawData] eqn:Hjson; [discriminate|].
  bind_inv H. apply get_normal_inv in H0 as (Hraw & -> & ->).
  bind_inv H. apply call_map_normal_inv in H0 as (items & Hitems & Hlive).
  bind_inv H. apply get_normal_inv in H0 as (_ & -> & ->).
  bind_inv H. apply call_map_normal_inv in H0 as (snaps & Hsnaps & Hhist).
  unfold ret in H. injection H as <- <-.
  do 7 eexists. repeat split; eauto.
Qed.

Lemma fetchHistory_inv h outcome now w store w' :
  fetchHistory h outcome now w = (Normal store, w') ->
  fetchHistory_try h outcome now w = (Normal store, w') \/ store = [].
Proof.
  unfold fetchHistory, try_catch.
  destruct (fetchHistory_try h outcome now w) as [[l|e] w1].
  - intros [= <- <-]. by left.
  - unfold bind, console_error, ret. intros [= <- <-]. by right.
Qed.

(** The promise of [fetchHistory] never rejects. *)
Lemma fetchHistory_returns h outcome now w :
  exists store w', fetchHistory h outcome now w = (Normal store, w').
Proof.
  unfold fetchHistory, try_catch.
  destruct (fetchHistory_try h outcome now w) as [[l|e] w1]; [eauto|].
  unfold bind, console_error, ret. eauto.
Qed.

(** ** C1: the sort invariant *)

Lemma ascending_nil : ascending [].
Proof. intros i a b Ha. done. Qed.

(** C1 (as amended).  Every store returned by [fetchHistory] in which each
    snapshot's timestamp is a number (no group's timestamp failed to
    convert) is in ascending order: [store[i].timestamp <=
    store[i+1].timestamp] for every [i] with [0 <= i < length - 1]. *)
Theorem fetchHistory_ascending h outcome now w store w' :
  fetchHistory h outcome now w = (Normal store, w') ->
  Forall timed store ->
  ascending store.
Proof.
  intros H Htimed. apply fetchHistory_inv in H as [H| ->]; [|apply ascending_nil].
  apply fetchHistory_try_inv in H
    as (r & raw & items & live & w1 & snaps & hist & _ & _ & _ & _ & _ & _ & _ & _ & ->).
  unfold ascending. apply Sorted_adjacent. apply sort_sorted.
  by rewrite sort_perm in Htimed.
Qed.

Lemma fetchHistory_ascending_witness :
  ascending
    (store_of (fetchHistory Fixture.host (Fixture.respond Fixture.shuffled_document)
                            Fixture.now0 Fixture.world0)).
Proof.
  apply (fetchHistory_ascending
           Fixture.host (Fixture.respond Fixture.shuffled_document)
           Fixture.now0 Fixture.world0 _
           (world_of (fetchHistory Fixture.host
                        (Fixture.respond Fixture.shuffled_document)
                        Fixture.now0 Fixture.world0))).
  - vm_compute. reflexivity.
  - vm_compute. repeat constructor; eexists; reflexivity.
Defined.

(** C1 (as stated) fails: a group whose timestamp does not convert to a
    number is admitted with a [NaN] timestamp, and [NaN <= now] is false. *)
Lemma fetchHistory_unparsed_timestamp_not_ascending :
  map timestamp
      (store_of (fetchHistory Fixture.host (Fixture.respond Fixture.unparsed_document)
                              Fixture.now0 Fixture.world0))
  = [None; Some Fixture.now0] /\
  ~ ascending
      (store_of (fetchHistory Fixture.host (Fixture.respond Fixture.unparsed_document)
                              Fixture.now0 Fixture.world0)).
Proof.
  split; [vm_compute; reflexivity|].
  intros H. pose proof (H 0%nat) as H0. vm_compute in H0.
  specialize (H0 _ _ eq_refl eq_refl). discriminate H0.
Qed.

(** ** C6: a failed fetch *)

(** C6.  When the request is rejected, when the response is not [ok], and
    when the body is not JSON, [fetchHistory] resolves with the empty store
    and writes the error to the console; and whatever the outcome, it
    resolves: nothing is thrown to the caller. *)
Theorem fetchHistory_failure h now w :
  (forall e, fetchHistory h (Rejected e) now w = (Normal [], logged e w)) /\
  (forall text body,
     fetchHistory h (Resolved {| ok := false; statusText := text; json := body |}) now w
     = (Normal [], logged (HttpError ("Failed to fetch data: " +:+ text)) w)) /\
  (forall text e,
     fetchHistory h (Resolved {| ok := true; statusText := text; json := inl e |}) now w
     = (Normal [], logged e w)) /\
  (forall outcome, exists store w', fetchHistory h outcome now w = (Normal store, w')).
Proof.
  repeat split; try reflexivity.
  intros outcome. apply fetchHistory_returns.
Qed.

(** ** C10: reading an empty store *)

Import useMarketData.

(** C10.  When [fetchHistory] resolves with the empty store, [loadData]
    sets the position to [length - 1 = -1], and every read of the hook is
    defined: the current entity list is empty, the label is ["Loading..."]
    and [isTimeTraveling] is false. *)
Theorem empty_store_reads h outcome now st w w' :
  fetchHistory h outcome now w = (Normal [], w') ->
  exists st',
    loadData h outcome now st w = (Normal st', w') /\
    history st' = [] /\ timeIndex st' = -1 /\ loading st' = false /\
    stocks st' = [] /\
    currentSnapshotLabel st' = "Loading..." /\
    isTimeTraveling st' = false.
Proof.
  intros H. eexists. split.
  - unfold loadData, try_catch, bind. rewrite H. reflexivity.
  - by repeat split.
Qed.

Lemma empty_store_reads_witness :
  exists st',
    loadData Fixture.host (Rejected (NetworkError "Failed to fetch"))
             Fixture.now0 initial Fixture.world0
    = (Normal st',
       logged (NetworkError "Failed to fetch") Fixture.world0) /\
    history st' = [] /\ timeIndex st' = -1 /\ loading st' = false /\
    stocks st' = [] /\
    currentSnapshotLabel st' = "Loading..." /\
    isTimeTraveling st' = false.
Proof.
  apply (empty_store_reads Fixture.host
           (Rejected (NetworkError "Failed to fetch")) Fixture.now0 initial
           Fixture.world0).
  reflexivity.
Defined.

(** ** C2: playback *)

Lemma tick_advance st :
  isPlaying st = true -> timeIndex st < length_Z (history st) - 1 ->
  tick st = setTimeIndex (timeIndex st + 1) st.
Proof.
  intros Hp Hlt. unfold tick. rewrite Hp.
  destruct (Z.leb_spec (length_Z (history st) - 1) (timeIndex st)); [lia|done].
Qed.

Lemma tick_at_end st :
  isPlaying st = true -> length_Z (history st) - 1 <= timeIndex st ->
  tick st = setIsPlaying false st.
Proof.
  intros Hp Hge. unfold tick. rewrite Hp.
  destruct (Z.leb_spec (length_Z (history st) - 1) (timeIndex st)); [done|lia].
Qed.

Lemma tick_stopped st : isPlaying st = false -> tick st = st.
Proof. unfold tick. by intros ->. Qed.

Lemma ticks_stopped n st : isPlaying st = false -> ticks n st = st.
Proof.
  revert st. induction n as [|n IH]; intros st Hp; simpl; [done|].
  rewrite (tick_stopped st Hp). by apply IH.
Qed.

(** C2 (as stated) fails: the tick that reaches [length - 1] leaves the
    controller playing. *)
Lemma tick_reaching_end_still_playing :
  timeIndex (tick Fixture.playingAtOldest) = 1 /\
  isPlaying (tick Fixture.playingAtOldest) = true.
Proof. split; reflexivity. Qed.

(** C2 (as amended).  While playing below the newest index a tick advances
    the position by exactly 1 and playback goes on; a tick at (or beyond) the
    newest index leaves the position and stops playback.  So from position
    [length - 2] of a two element history the first tick reaches
    [length - 1] with playback still running, the second tick leaves the
    position at [length - 1] and halts it, and no later tick changes
    anything. *)
Theorem tick_playback :
  (forall st, isPlaying st = true -> timeIndex st < length_Z (history st) - 1 ->
     timeIndex (tick st) = timeIndex st + 1 /\ isPlaying (tick st) = true /\
     history (tick st) = history st) /\
  (forall st, isPlaying st = true -> length_Z (history st) - 1 <= timeIndex st ->
     timeIndex (tick st) = timeIndex st /\ isPlaying (tick st) = false /\
     history (tick st) = history st) /\
  (forall st a b,
     history st = [a; b] -> timeIndex st = 0 -> isPlaying st = true ->
     (timeIndex (ticks 1 st) = 1 /\ isPlaying (ticks 1 st) = true) /\
     (forall n, timeIndex (ticks (2 + n) st) = 1 /\
                isPlaying (ticks (2 + n) st) = false)).
Proof.
  split; [|split].
  - intros st Hp Hlt. by rewrite tick_advance.
  - intros st Hp Hge. by rewrite tick_at_end.
  - intros [hist i ld pl] a b Hh Hi Hp. simpl in *. subst.
    split; [done|]. intros n. simpl. rewrite ticks_stopped; done.
Qed.

Lemma tick_playback_witness :
  (timeIndex (ticks 1 Fixture.playingAtOldest) = 1 /\
   isPlaying (ticks 1 Fixture.playingAtOldest) = true) /\
  (forall n, timeIndex (ticks (2 + n) Fixture.playingAtOldest) = 1 /\
             isPlaying (ticks (2 + n) Fixture.playingAtOldest) = false).
Proof.
  apply (proj2 (proj2 tick_playback) Fixture.playingAtOldest
               Fixture.older Fixture.newest); reflexivity.
Defined.

(** ** C5: sentiment *)

Import Analytics.

Lemma isBullish_bullishTag s : isBullish s = bullishTag s.
Proof.
  unfold isBullish, bullishTag, field.
  by destruct (s !! "status") as [[]|].
Qed.

Lemma filter_bullish_length stocks :
  length (filter (fun s => isBullish s = true) stocks) = countBullish stocks.
Proof.
  induction stocks as [|s stocks IH]; [done|].
  rewrite filter_cons. simpl. rewrite <- isBullish_bullishTag.
  destruct (isBullish s) eqn:Hs.
  - rewrite decide_True by done. simpl. by rewrite IH.
  - rewrite decide_False by done. by rewrite IH.
Qed.

Lemma countBullish_le stocks : (countBullish stocks <= length stocks)%nat.
Proof.
  induction stocks as [|s stocks IH]; simpl; [lia|].
  destruct (bullishTag s); lia.
Qed.

Lemma calculateSentiment_eq stocks :
  calculateSentiment stocks =
  if (length stocks =? 0)%nat then {| bullish := 0; bearish := 0; percent := 0 |}
  else {| bullish := countBullish stocks;
          bearish := length stocks - countBullish stocks;
          percent := floatPercent (countBullish stocks) (length stocks) |}.
Proof.
  unfold calculateSentiment. destruct (length stocks =? 0)%nat; [done|].
  by rewrite filter_bullish_length.
Qed.

(** C5.  The counts are as the claim has them, but the percentage is not
    always [round(bullish / total * 100)]: it is computed on binary64
    Numbers, where 23 / 40 is a little less than 0.575 and the product with
    100 is 57.49999999999999.  With 23 bullish entities out of 40 the code
    returns 57, and the rounded percentage of 57.5 is 58. *)
Theorem calculateSentiment_23_of_40 :
  length Fixture.forty = 40%nat /\
  countBullish Fixture.forty = 23%nat /\
  calculateSentiment Fixture.forty
  = {| bullish := 23; bearish := 17; percent := 57 |} /\
  exactPercent 23 40 = 58.
Proof. repeat split; vm_compute; reflexivity. Qed.

(** For 1 to 39 entities the binary64 percentage is the exactly rounded
    one, for every count. *)
Lemma floatPercent_exact_upto_39 : forallb percentsAgree (seq 1 39) = true.
Proof. vm_compute. reflexivity. Qed.

(** ** C3: the 24 hour window *)

Import TimeTravelFooter.

Lemma at_index_nat {A} (l : list A) (k : nat) : at_index l (Z.of_nat k) = l !! k.
Proof.
  unfold at_index. destruct (Z.ltb_spec (Z.of_nat k) 0); [lia|].
  by rewrite Nat2Z.id.
Qed.

Lemma at_index_elem_of {A} (l : list A) i x : at_index l i = Some x -> x ∈ l.
Proof.
  unfold at_index. destruct (i <? 0); [done|].
  intros H. apply list_elem_of_lookup. eauto.
Qed.

Lemma findIndex_found {A} (p : A -> bool) l x :
  x ∈ l -> p x = true ->
  exists (k : nat) y, findIndex p l = Z.of_nat k /\ l !! k = Some y /\ p y = true.
Proof.
  intros Hin Hp. induction l as [|z l IH]; [by apply elem_of_nil in Hin|].
  simpl. destruct (p z) eqn:Hz.
  - by exists 0%nat, z.
  - apply elem_of_cons in Hin as [->|Hin]; [congruence|].
    destruct (IH Hin) as (k & y & Hk & Hy & Hpy).
    exists (S k), y. rewrite Hk.
    destruct (Z.ltb_spec (Z.of_nat k) 0); [lia|].
    repeat split; [lia|done..].
Qed.

Lemma findIndex_not_found {A} (p : A -> bool) l :
  Forall (fun x => p x = false) l -> findIndex p l = -1.
Proof.
  induction 1 as [|x l Hx Hl IH]; simpl; [done|].
  by rewrite Hx, IH.
Qed.

Lemma filteredHistory_filter store now :
  filteredHistory store now =
  filter (fun snapshot => time_ge (timestamp snapshot) (now - dayMs) = true) store.
Proof.
  unfold filteredHistory. destruct store; [done|].
  unfold length_Z. simpl length.
  by destruct (Z.eqb_spec (Z.of_nat (S (length store))) 0); [lia|].
Qed.

Lemma elem_of_filteredHistory store now s :
  s ∈ filteredHistory store now <->
  time_ge (timestamp s) (now - dayMs) = true /\ s ∈ store.
Proof. rewrite filteredHistory_filter. by rewrite list_elem_of_filter. Qed.

Lemma length_Z_zero {A} (l : list A) : (length_Z l =? 0) = true <-> l = [].
Proof.
  unfold length_Z. destruct l; simpl length; [done|].
  split; [|done]. destruct (Z.eqb_spec (Z.of_nat (S (length l))) 0); [lia|done].
Qed.

Lemma length_Z_nonzero {A} (l : list A) x : x ∈ l -> (length_Z l =? 0) = false.
Proof.
  intros Hin. destruct (length_Z l =? 0) eqn:H; [|done].
  apply length_Z_zero in H. subst. by apply elem_of_nil in Hin.
Qed.

Lemma sameTime_true a s t :
  timestamp a = Some t -> sameTime a s = true -> timestamp s = Some t.
Proof.
  unfold sameTime, time_eq. intros ->. destruct (timestamp s) as [u|]; [|done].
  intros H. apply Z.eqb_eq in H. by subst.
Qed.

Lemma sameTime_refl a s t :
  timestamp a = Some t -> timestamp s = Some t -> sameTime a s = true.
Proof. unfold sameTime, time_eq. intros -> ->. apply Z.eqb_refl. Qed.

(** C3.  Let the snapshot at full index [i] have the timestamp [t], and let
    [j] be the window index computed for [i].  If [t] lies within
    [[now - 24h, now]], the slider's way back from [j] sets the position to a
    full index whose snapshot has that same timestamp, hence lies within the
    window.  If [t] is older than the window, [j] is the last index of the
    window (a valid one) whenever the window has a snapshot, and 0 when it
    has none; nothing fails. *)
Theorem window_round_trip store now i cur t st :
  at_index store i = Some cur ->
  timestamp cur = Some t ->
  let window := filteredHistory store now in
  let j := filteredTimeIndex store i window in
  (inWindow now t ->
   exists (k : nat) s,
     handleTimeIndexChange store window j st
       = Normal (setTimeIndex (Z.of_nat k) (setIsPlaying false st)) /\
     store !! k = Some s /\ timestamp s = Some t /\ inWindow now t) /\
  (t < now - dayMs ->
   j = (if length_Z window =? 0 then 0 else length_Z window - 1) /\
   (window <> [] -> is_Some (at_index window j))).
Proof.
  intros Hcur Ht window j. split.
  - intros Hwin.
    assert (Hin : cur ∈ store) by (by eapply at_index_elem_of).
    assert (Hinw : cur ∈ window).
    { apply elem_of_filteredHistory. split; [|done].
      rewrite Ht. simpl. unfold inWindow in Hwin. lia. }
    destruct (findIndex_found (sameTime cur) window cur Hinw)
      as (k & y & Hk & Hy & Hpy); [by eapply sameTime_refl|].
    assert (Hj : j = Z.of_nat k).
    { unfold j, filteredTimeIndex.
      rewrite (length_Z_nonzero window cur Hinw), Hcur. fold window.
      rewrite Hk. destruct (Z.leb_spec 0 (Z.of_nat k)); [done|lia]. }
    pose proof (sameTime_true cur y t Ht Hpy) as Hty.
    destruct (findIndex_found (sameTime y) store cur Hin)
      as (k' & s & Hk' & Hs & Hps); [by eapply sameTime_refl|].
    exists k', s. repeat split; [|done|by eapply sameTime_true|..];
      try (unfold inWindow in Hwin; lia).
    unfold handleTimeIndexChange.
    rewrite (length_Z_nonzero window cur Hinw), Hj, at_index_nat, Hy, Hk'.
    destruct (Z.leb_spec 0 (Z.of_nat k')); [done|lia].
  - intros Hold.
    assert (Hnone : findIndex (sameTime cur) window = -1).
    { apply findIndex_not_found, Forall_forall. intros y Hy.
      apply elem_of_filteredHistory in Hy as [Hge _].
      unfold sameTime, time_eq. rewrite Ht.
      destruct (timestamp y) as [u|]; [|done]. simpl in Hge.
      destruct (Z.eqb_spec u t); [lia|done]. }
    assert (Hj : j = if length_Z window =? 0 then 0 else length_Z window - 1).
    { unfold j, filteredTimeIndex. destruct (length_Z window =? 0); [done|].
      rewrite Hcur. fold window. by rewrite Hnone. }
    split; [done|]. intros Hne. rewrite Hj.
    destruct window as [|x l] eqn:Hw; [done|].
    unfold length_Z. simpl length.
    destruct (Z.eqb_spec (Z.of_nat (S (length l))) 0); [lia|].
    replace (Z.of_nat (S (length l)) - 1) with (Z.of_nat (length l)) by lia.
    rewrite at_index_nat. apply lookup_lt_is_Some. simpl. lia.
Qed.

Lemma window_round_trip_witness :
  (exists (k : nat) s,
     handleTimeIndexChange
       [Fixture.older; Fixture.newest]
       (filteredHistory [Fixture.older; Fixture.newest] Fixture.now0)
       (filteredTimeIndex [Fixture.older; Fixture.newest] 0
          (filteredHistory [Fixture.older; Fixture.newest] Fixture.now0))
       Fixture.playingAtOldest
     = Normal (setTimeIndex (Z.of_nat k) (setIsPlaying false Fixture.playingAtOldest)) /\
     [Fixture.older; Fixture.newest] !! k = Some s /\
     timestamp s = Some 1699990000000 /\
     inWindow Fixture.now0 1699990000000) /\
  filteredTimeIndex [Fixture.stale; Fixture.older; Fixture.newest] 0
    (filteredHistory [Fixture.stale; Fixture.older; Fixture.newest] Fixture.now0)
  = 1.
Proof.
  split.
  - apply (window_round_trip [Fixture.older; Fixture.newest] Fixture.now0 0
             Fixture.older 1699990000000 Fixture.playingAtOldest eq_refl eq_refl).
    unfold inWindow. vm_compute. split; discriminate.
  - apply (proj2 (window_round_trip
                    [Fixture.stale; Fixture.older; Fixture.newest] Fixture.now0 0
                    Fixture.stale (Fixture.now0 - 2 * dayMs) initial eq_refl eq_refl)).
    vm_compute. reflexivity.
Defined.

(** ** Normalisation of the baseline *)

Lemma bind_get {B} v k (f : JsVal -> M B) w :
  nullish v = false -> bind (get v k) f w = f (prop v k) w.
Proof. intros Hv. unfold bind. by rewrite get_normal. Qed.

Lemma bind_getString {B} h v k (f : JsVal -> M B) w :
  nullish v = false -> convertible (prop v k) = true ->
  bind (getString h v k) f w = f (JStr (textOf h (prop v k))) w.
Proof.
  intros Hv Hc. unfold getString. unfold bind at 1 2. rewrite get_normal by done.
  unfold bind. by rewrite (ToString_textOf h _ Hc).
Qed.

Lemma randomCap_normal h base spread w :
  exists cap,
    randomCap h base spread w
    = (Normal cap, {| random_calls := S (random_calls w); console := console w |}).
Proof. unfold randomCap, bind, random, ret. eauto. Qed.

Lemma generateMarketCap_normal h ticker sector w :
  exists cap,
    generateMarketCap h ticker sector w
    = (Normal cap, {| random_calls := S (random_calls w); console := console w |}).
Proof.
  unfold generateMarketCap.
  repeat match goal with |- context [if ?b then _ else _] => destruct b end;
    apply randomCap_normal.
Qed.

Lemma getString_normal h v k w :
  nullish v = false -> convertible (prop v k) = true ->
  getString h v k w = (Normal (JStr (textOf h (prop v k))), w).
Proof.
  intros Hv Hc. unfold getString. rewrite (bind_get v) by done.
  unfold bind. by rewrite (ToString_textOf h _ Hc).
Qed.

(** A normalizable record yields a live stock; the stock keeps every
    property of the record that is not a normalised one, its ticker among
    them, and nothing is written to the console. *)
Lemma normalizeItem_normal h item w :
  normalizable item ->
  exists o w',
    normalizeItem h item w = (Normal o, w') /\
    console w' = console w /\
    (forall k, k ∉ normalizedKeys -> o !! k = own_props item !! k).
Proof.
  intros [Hitem Hkeys]. unfold normalizedKeys in Hkeys.
  repeat (apply Forall_cons in Hkeys as [? Hkeys]).
  unfold normalizeItem.
  rewrite (bind_get item) by done.
  assert (Hcap : exists cap w',
            (if truthy (prop item "market_cap") then getString h item "market_cap"
             else
               let! ticker := get item "ticker" in
               let! sector := get item "sector" in
               let! cap := generateMarketCap h ticker sector in
               ret (JStr cap)) w = (Normal cap, w') /\ console w' = console w).
  { destruct (truthy (prop item "market_cap")).
    - rewrite getString_normal by done. eauto.
    - rewrite !(bind_get item) by done.
      destruct (generateMarketCap_normal h (prop item "ticker") (prop item "sector") w)
        as [cap Hc].
      unfold bind. rewrite Hc. unfold ret. eauto. }
  destruct Hcap as (cap & w' & Hcap & Hw).
  rewrite (bind_normal _ _ _ _ _ Hcap).
  rewrite !(bind_getString h item) by done.
  unfold ret. eexists _, w'. split; [reflexivity|]. split; [done|].
  intros k Hk. unfold normalizedKeys in Hk.
  repeat (rewrite lookup_insert_ne; [|intros <-; apply Hk; repeat constructor]).
  done.
Qed.

Ltac getString_inv H :=
  let a := fresh "a" in
  let w := fresh "w" in
  let Hg := fresh "Hg" in
  let Hc := fresh "Hc" in
  apply bind_normal_inv in H as (a & w & Hg & H);
  apply getString_normal_inv in Hg as (_ & Hc & -> & ->).

(** Only a normalizable record yields a live stock. *)
Lemma normalizeItem_normalizable h item w o w' :
  normalizeItem h item w = (Normal o, w') -> normalizable item.
Proof.
  intros H. unfold normalizeItem in H.
  bind_inv H. apply get_normal_inv in H0 as (Hitem & -> & ->).
  bind_inv H.
  assert (Hmc : convertible (prop item "market_cap") = true).
  { destruct (truthy (prop item "market_cap")) eqn:Ht.
    - by apply getString_normal_inv in H0 as (_ & ? & _).
    - by apply falsy_convertible. }
  clear H0.
  do 7 getString_inv H.
  split; [done|]. unfold normalizedKeys. by repeat constructor.
Qed.

Lemma normalizeItem_inv h item w o w' :
  normalizeItem h item w = (Normal o, w') ->
  normalizable item /\ console w' = console w /\
  (forall k, k ∉ normalizedKeys -> o !! k = own_props item !! k).
Proof.
  intros H. pose proof (normalizeItem_normalizable h item w o w' H) as Hitem.
  destruct (normalizeItem_normal h item w Hitem) as (o' & w'' & Hn & Hc & Hk).
  rewrite H in Hn. injection Hn as <- <-. done.
Qed.

Lemma normalized_ticker (o : Obj) item :
  (forall k, k ∉ normalizedKeys -> o !! k = own_props item !! k) ->
  field o "ticker" = prop item "ticker".
Proof.
  intros H. unfold prop, field. rewrite H; [done|].
  unfold normalizedKeys. intros Hin.
  repeat (apply elem_of_cons in Hin as [Hin|Hin]; [discriminate|]).
  by apply elem_of_nil in Hin.
Qed.

(** The baseline has one live stock per raw record, in order and with the
    record's ticker. *)
Lemma normalize_all_inv h items w liveStocks w' :
  mapM (normalizeItem h) items w = (Normal liveStocks, w') ->
  Forall normalizable items /\
  console w' = console w /\
  Forall2 sameTicker items liveStocks.
Proof.
  revert w liveStocks. induction items as [|item items IH]; intros w live H.
  - simpl in H. unfold ret in H. injection H as <- <-. by repeat constructor.
  - simpl in H. bind_inv H. bind_inv H. unfold ret in H. injection H as <- <-.
    apply normalizeItem_inv in H0 as (Hitem & Hc & Hk).
    apply IH in H1 as (Hitems & Hc' & Htick).
    split; [by constructor|]. split; [congruence|].
    constructor; [|done]. by apply normalized_ticker.
Qed.

Lemma normalize_all_normal h items w :
  Forall normalizable items ->
  exists liveStocks w', mapM (normalizeItem h) items w = (Normal liveStocks, w').
Proof.
  intros Hitems. revert w. induction Hitems as [|item items Hitem _ IH]; intros w.
  - simpl. unfold ret. eauto.
  - destruct (normalizeItem_normal h item w Hitem) as (o & w1 & Hn & _).
    destruct (IH w1) as (live & w2 & Hm).
    simpl. rewrite (bind_normal _ _ _ _ _ Hn), (bind_normal _ _ _ _ _ Hm).
    unfold ret. eauto.
Qed.

(** The [try] block on a document that is an object with a [stockData]
    array and a [historicalSnapshots] array. *)
Lemma fetchHistory_try_object h text (doc : Obj) items snaps now w :
  doc !! "stockData" = Some (JArr items) ->
  doc !! "historicalSnapshots" = Some (JArr snaps) ->
  fetchHistory_try h (success text (JObj doc)) now w =
  match mapM (normalizeItem h) items w with
  | (Normal liveStocks, w1) =>
      match mapM (processSnapshot h liveStocks) snaps w1 with
      | (Normal hist, w2) =>
          (Normal (sort byTimestamp (hist ++ [liveSnapshot now liveStocks])), w2)
      | (Throw e, w2) => (Throw e, w2)
      end
  | (Throw e, w1) => (Throw e, w1)
  end.
Proof.
  intros Hsd Hhs. unfold fetchHistory_try, success. cbn [ok json negb].
  rewrite (bind_get (JObj doc)) by done.
  unfold prop at 1. unfold field. cbn [own_props]. rewrite Hsd. cbn [default from_option id call_map].
  unfold bind at 1.
  destruct (mapM (normalizeItem h) items w) as [[live|e] w1]; [|done].
  rewrite (bind_get (JObj doc)) by done.
  unfold prop, field. cbn [own_props]. rewrite Hhs. cbn [default from_option id truthy call_map].
  unfold bind.
  by destruct (mapM (processSnapshot h live) snaps w1) as [[hist|e] w2].
Qed.

(** ** C9: records without a ticker *)

(** C9 (as stated) fails: a raw record without a ticker is kept in the
    baseline, and nothing is logged. *)
Lemma record_without_ticker_kept :
  map (fun s => tickers (data s))
      (store_of (fetchHistory Fixture.host
                   (Fixture.respond Fixture.anonymous_document)
                   Fixture.now0 Fixture.world0))
  = [[JUndef; JStr "AAPL"]] /\
  console (world_of (fetchHistory Fixture.host
                       (Fixture.respond Fixture.anonymous_document)
                       Fixture.now0 Fixture.world0)) = [].
Proof. split; vm_compute; reflexivity. Qed.

(** C9 (as amended).  Normalisation keeps every raw record, one with a
    ticker or one without: on raw records that are not [null] and whose
    eight converted properties are convertible (no object with an own
    [toString] among them), [rawData.stockData.map] completes with exactly
    one live stock per record, in order, each carrying its record's ticker
    ([undefined] when the record has none), and writes nothing to the
    console.  Whether a record has a ticker plays no part in that. *)
Theorem normalization_keeps_every_record h items w :
  Forall normalizable items ->
  exists liveStocks w',
    call_map (JArr items) (normalizeItem h) w = (Normal liveStocks, w') /\
    length liveStocks = length items /\
    Forall2 sameTicker items liveStocks /\
    console w' = console w.
Proof.
  intros Hitems.
  destruct (normalize_all_normal h items w Hitems) as (live & w' & Hm).
  exists live, w'. split; [done|].
  apply normalize_all_inv in Hm as (_ & Hc & Ht).
  split; [symmetry; by eapply Forall2_length|done].
Qed.

Lemma normalization_keeps_every_record_witness :
  exists liveStocks w',
    call_map (JArr [Fixture.object [("sector", JStr "Technology")];
                    Fixture.rawStock "AAPL" "Technology" "BULLISH" 145])
             (normalizeItem Fixture.host) Fixture.world0
    = (Normal liveStocks, w') /\
    length liveStocks = 2%nat /\
    Forall2 sameTicker
            [Fixture.object [("sector", JStr "Technology")];
             Fixture.rawStock "AAPL" "Technology" "BULLISH" 145]
            liveStocks /\
    console w' = console Fixture.world0.
Proof.
  apply (normalization_keeps_every_record Fixture.host
           [Fixture.object [("sector", JStr "Technology")];
            Fixture.rawStock "AAPL" "Technology" "BULLISH" 145]
           Fixture.world0).
  repeat constructor.
Defined.

(** ** C8: a document without history *)

(** C8 (as stated) fails: with an empty history and a [stockData] array
    the store need not have length 1.  A [null] record, or a record with
    an object that has an own [toString] property where [String] is
    applied, raises a [TypeError]; the [catch] block logs it and the store
    is empty. *)
Lemma fetchHistory_bad_record_without_history :
  fetchHistory Fixture.host (Fixture.respond Fixture.null_record_document)
               Fixture.now0 Fixture.world0
  = (Normal [], logged (TypeError "market_cap") Fixture.world0) /\
  fetchHistory Fixture.host (Fixture.respond Fixture.opaque_record_document)
               Fixture.now0 Fixture.world0
  = (Normal [],
     logged (TypeError "toString")
            {| random_calls := 1; console := [] |}).
Proof. split; vm_compute; reflexivity. Qed.

(** C8 (as amended).  A successful fetch of a document whose [stockData]
    is an array of normalizable raw records (none of them [null], the
    converted properties convertible) and whose [historicalSnapshots] is
    the empty array resolves with a store of exactly one snapshot: the live
    one, labelled ['Now (Live)'], stamped with the time of the fetch, and
    holding the baseline (one live stock per raw record).  When a record is
    not normalizable the store is empty instead. *)
Theorem fetchHistory_without_history h text (m : Obj) items now w :
  m !! "stockData" = Some (JArr items) ->
  m !! "historicalSnapshots" = Some (JArr []) ->
  (Forall normalizable items ->
   exists liveStocks w',
     fetchHistory h (success text (JObj m)) now w
     = (Normal [liveSnapshot now liveStocks], w') /\
     call_map (JArr items) (normalizeItem h) w = (Normal liveStocks, w') /\
     length liveStocks = length items /\
     console w' = console w) /\
  (~ Forall normalizable items ->
   store_of (fetchHistory h (success text (JObj m)) now w) = []).
Proof.
  intros Hsd Hhs. split.
  - intros Hitems.
    destruct (normalize_all_normal h items w Hitems) as (live & w' & Hm).
    pose proof (normalize_all_inv h items w live w' Hm) as (_ & Hc & Ht).
    exists live, w'. repeat split; [|done|symmetry; by eapply Forall2_length|done].
    unfold fetchHistory, try_catch.
    rewrite (fetchHistory_try_object h text m items [] now w Hsd Hhs), Hm.
    reflexivity.
  - intros Hnot. unfold fetchHistory, try_catch.
    rewrite (fetchHistory_try_object h text m items [] now w Hsd Hhs).
    destruct (mapM (normalizeItem h) items w) as [[live|e] w'] eqn:Hm; [|done].
    destruct Hnot. by apply normalize_all_inv in Hm as (? & _).
Qed.

Lemma fetchHistory_without_history_witness :
  exists liveStocks w',
    fetchHistory Fixture.host
      (success "OK" (JObj (list_to_map
                             [("stockData", JArr Fixture.baseline);
                              ("historicalSnapshots", JArr [])])))
      Fixture.now0 Fixture.world0
    = (Normal [liveSnapshot Fixture.now0 liveStocks], w') /\
    call_map (JArr Fixture.baseline) (normalizeItem Fixture.host) Fixture.world0
    = (Normal liveStocks, w') /\
    length liveStocks = length Fixture.baseline /\
    console w' = console Fixture.world0.
Proof.
  refine (proj1 (fetchHistory_without_history Fixture.host "OK"
                   (list_to_map
                      [("stockData", JArr Fixture.baseline);
                       ("historicalSnapshots", JArr [])])
                   Fixture.baseline Fixture.now0 Fixture.world0 _ _) _).
  - vm_compute. reflexivity.
  - vm_compute. reflexivity.
  - repeat constructor.
Defined.

(** ** The merger *)

Lemma sameTicker_callback (s : Obj) p w :
  isRecord p ->
  (let! ticker := get p "ticker" in ret (strict_eq (field s "ticker") ticker)) w
  = (Normal (strict_eq (field s "ticker") (prop p "ticker")), w).
Proof. intros Hp. by rewrite (bind_get p). Qed.

Lemma findM_unmatched (liveStocks : list Obj) p w :
  isRecord p -> unmatched p liveStocks ->
  findM (fun s =>
           let! ticker := get p "ticker" in
           ret (strict_eq (field s "ticker") ticker))
        liveStocks w
  = (Normal None, w).
Proof.
  intros Hp Hun. induction Hun as [|s l Hs _ IH]; [done|].
  simpl. rewrite (bind_normal _ _ _ _ _ (sameTicker_callback s p w Hp)).
  by rewrite Hs.
Qed.

Lemma mergeStock_unmatched h liveStocks p w :
  isRecord p -> unmatched p liveStocks ->
  mergeStock h liveStocks p w = (Normal None, w).
Proof.
  intros Hp Hun. unfold mergeStock.
  by rewrite (bind_normal _ _ _ _ _ (findM_unmatched liveStocks p w Hp Hun)).
Qed.

Lemma filterBoolean_cons y (ys : list (option Obj)) :
  filterBoolean (y :: ys) =
  match y with Some o => o :: filterBoolean ys | None => filterBoolean ys end.
Proof. unfold filterBoolean. simpl. by destruct y. Qed.

Lemma mapM_cons {A B} (f : A -> M B) x l w :
  mapM f (x :: l) w =
  match f x w with
  | (Normal y, w1) =>
      match mapM f l w1 with
      | (Normal ys, w2) => (Normal (y :: ys), w2)
      | (Throw e, w2) => (Throw e, w2)
      end
  | (Throw e, w1) => (Throw e, w1)
  end.
Proof.
  simpl. unfold bind. destruct (f x w) as [[y|e] w1]; [|done].
  by destruct (mapM f l w1) as [[ys|e] w2].
Qed.

(** Skipping an element on which the callback returns [null] changes
    nothing after [.filter(Boolean)]. *)
Lemma mapM_skip_null (f : JsVal -> M (option Obj)) ps1 p ps2 w :
  (forall w, f p w = (Normal None, w)) ->
  bind (mapM f (ps1 ++ p :: ps2)) (fun l => ret (filterBoolean l)) w
  = bind (mapM f (ps1 ++ ps2)) (fun l => ret (filterBoolean l)) w.
Proof.
  intros Hp. revert w. induction ps1 as [|x ps1 IH]; intros w.
  - rewrite !app_nil_l. unfold bind. rewrite mapM_cons, Hp.
    by destruct (mapM f ps2 w) as [[ys|e] w1].
  - rewrite <- !app_comm_cons. specialize IH. unfold bind in *.
    rewrite !mapM_cons. destruct (f x w) as [[y|e] w1]; [|done].
    specialize (IH w1).
    destruct (mapM f (ps1 ++ p :: ps2) w1) as [[l1|e1] w2];
      destruct (mapM f (ps1 ++ ps2) w1) as [[l2|e2] w3];
      unfold ret in *; try congruence.
    injection IH as IH <-. by rewrite !filterBoolean_cons, IH.
Qed.

Lemma mapM_replace {A B} (f : A -> M B) l1 x x' l2 w :
  (forall w, f x w = f x' w) ->
  mapM f (l1 ++ x :: l2) w = mapM f (l1 ++ x' :: l2) w.
Proof.
  intros Hx. revert w. induction l1 as [|y l1 IH]; intros w.
  - rewrite !app_nil_l, !mapM_cons. by rewrite Hx.
  - rewrite <- !app_comm_cons, !mapM_cons.
    destruct (f y w) as [[b|e] w1]; [|done]. by rewrite IH.
Qed.

Lemma processSnapshot_skip_unmatched h liveStocks (m : Obj) ps1 p ps2 w :
  isRecord p -> unmatched p liveStocks ->
  processSnapshot h liveStocks (withStocks m (ps1 ++ p :: ps2)) w
  = processSnapshot h liveStocks (withStocks m (ps1 ++ ps2)) w.
Proof.
  intros Hp Hun. unfold processSnapshot, withStocks.
  rewrite !(bind_get (JObj _)) by done.
  assert (Hts : forall l, prop (JObj (<["stocks" := JArr l]> m)) "timestamp"
                          = prop (JObj m) "timestamp").
  { intros l. unfold prop, field. simpl. by rewrite lookup_insert_ne. }
  rewrite !Hts.
  destruct (Date_new h (prop (JObj m) "timestamp")) as [date|]; [|done].
  rewrite !(bind_convert _ date) by done.
  rewrite !(bind_get (JObj _)) by done.
  unfold prop, field. simpl. rewrite !lookup_insert_eq. simpl.
  pose proof (mapM_skip_null (mergeStock h liveStocks) ps1 p ps2 w
                (fun w => mergeStock_unmatched h liveStocks p w Hp Hun)) as H.
  unfold bind in *.
  destruct (mapM (mergeStock h liveStocks) (ps1 ++ p :: ps2) w) as [[l1|e1] w1];
    destruct (mapM (mergeStock h liveStocks) (ps1 ++ ps2) w) as [[l2|e2] w2];
    unfold ret in *; congruence.
Qed.

(** ** C7: a delta for an unknown ticker *)

Lemma unmatchedRaw_unmatched p items liveStocks :
  Forall2 sameTicker items liveStocks -> unmatchedRaw p items -> unmatched p liveStocks.
Proof.
  unfold unmatched, unmatchedRaw.
  induction 1 as [|item o items live Ht _ IH]; intros Hun; [constructor|].
  apply Forall_cons in Hun as [Hitem Hun].
  constructor; [|by apply IH]. unfold sameTicker in Ht. by rewrite Ht.
Qed.

(** C7.  A partial record whose ticker matches no baseline record is
    discarded by the merger ([mergeStock] returns [null] for it, inventing
    no entity), and the fetch resolves exactly as it does on the document
    without that record: the other entities of its snapshot, and everything
    else, are unaffected. *)
Theorem unmatched_delta_discarded h text (d m : Obj) items ss1 ss2 ps1 p ps2 now w :
  d !! "stockData" = Some (JArr items) ->
  isRecord p ->
  unmatchedRaw p items ->
  (forall liveStocks w0 w1 w',
     mapM (normalizeItem h) items w0 = (Normal liveStocks, w1) ->
     mergeStock h liveStocks p w' = (Normal None, w')) /\
  fetchHistory h
    (success text (withSnapshots d (ss1 ++ withStocks m (ps1 ++ p :: ps2) :: ss2)))
    now w
  = fetchHistory h
      (success text (withSnapshots d (ss1 ++ withStocks m (ps1 ++ ps2) :: ss2)))
      now w.
Proof.
  intros Hsd Hp Hun.
  assert (Hlive : forall liveStocks w0 w1,
             mapM (normalizeItem h) items w0 = (Normal liveStocks, w1) ->
             unmatched p liveStocks).
  { intros live w0 w1 Hm. apply normalize_all_inv in Hm as (_ & _ & Ht).
    by eapply unmatchedRaw_unmatched. }
  split.
  { intros live w0 w1 w' Hm. apply mergeStock_unmatched; [done|by eapply Hlive]. }
  unfold fetchHistory, try_catch, withSnapshots.
  erewrite !fetchHistory_try_object;
    try (by rewrite lookup_insert_ne, Hsd); try apply lookup_insert_eq.
  destruct (mapM (normalizeItem h) items w) as [[live|e] w1] eqn:Hm; [|done].
  rewrite (mapM_replace (processSnapshot h live) ss1
             (withStocks m (ps1 ++ p :: ps2)) (withStocks m (ps1 ++ ps2)) ss2 w1);
    [done|].
  intros w2. apply processSnapshot_skip_unmatched; [done|by eapply Hlive].
Qed.

Lemma unmatched_delta_discarded_witness :
  (forall liveStocks w0 w1 w',
     mapM (normalizeItem Fixture.host) Fixture.baseline w0 = (Normal liveStocks, w1) ->
     mergeStock Fixture.host liveStocks Fixture.unknown w' = (Normal None, w')) /\
  fetchHistory Fixture.host
    (success "OK"
       (withSnapshots Fixture.baselineOnly
          ([] ++ withStocks Fixture.groupAt
                   ([Fixture.delta "AAPL" "BEARISH" 144] ++
                    Fixture.unknown :: [Fixture.delta "PFE" "BULLISH" 31]) :: [])))
    Fixture.now0 Fixture.world0
  = fetchHistory Fixture.host
      (success "OK"
         (withSnapshots Fixture.baselineOnly
            ([] ++ withStocks Fixture.groupAt
                     ([Fixture.delta "AAPL" "BEARISH" 144] ++
                      [Fixture.delta "PFE" "BULLISH" 31]) :: [])))
      Fixture.now0 Fixture.world0.
Proof.
  apply (unmatched_delta_discarded Fixture.host "OK" Fixture.baselineOnly
           Fixture.groupAt Fixture.baseline [] []
           [Fixture.delta "AAPL" "BEARISH" 144] Fixture.unknown
           [Fixture.delta "PFE" "BULLISH" 31] Fixture.now0 Fixture.world0).
  - vm_compute. reflexivity.
  - reflexivity.
  - repeat constructor.
Defined.

(** ** C4: the entities of a snapshot *)

Lemma findM_record (liveStocks : list Obj) p w :
  isRecord p ->
  findM (fun s =>
           let! ticker := get p "ticker" in
           ret (strict_eq (field s "ticker") ticker))
        liveStocks w
  = (Normal (baseOf liveStocks p), w).
Proof.
  intros Hp. unfold baseOf. induction liveStocks as [|s l IH]; [done|].
  simpl. rewrite (bind_normal _ _ _ _ _ (sameTicker_callback s p w Hp)).
  destruct (strict_eq (field s "ticker") (prop p "ticker")); [done|apply IH].
Qed.

(** [find] calls its callback only on a non-empty baseline, so a partial
    record is read only then. *)
Lemma findM_inv (liveStocks : list Obj) p w r w' :
  findM (fun s =>
           let! ticker := get p "ticker" in
           ret (strict_eq (field s "ticker") ticker))
        liveStocks w
  = (Normal r, w') ->
  r = baseOf liveStocks p /\ w' = w.
Proof.
  intros H. destruct liveStocks as [|s l].
  - simpl in H. unfold ret in H. by injection H as <- <-.
  - assert (Hp : isRecord p).
    { simpl in H. bind_inv H. bind_inv H0.
      by apply get_normal_inv in H1 as (? & _). }
    rewrite (findM_record (s :: l) p w Hp) in H. by injection H as <- <-.
Qed.

Lemma baseOf_Some liveStocks p b :
  baseOf liveStocks p = Some b ->
  matched liveStocks p = true /\ b ∈ liveStocks /\
  strict_eq (field b "ticker") (prop p "ticker") = true.
Proof.
  unfold baseOf, matched. intros H. apply find_some in H as [Hin Hb].
  split; [|split; [by apply list_elem_of_In|done]].
  apply existsb_exists. eauto.
Qed.

Lemma baseOf_None liveStocks p :
  baseOf liveStocks p = None -> matched liveStocks p = false.
Proof.
  unfold baseOf, matched. intros H.
  destruct (existsb _ liveStocks) eqn:He; [|done].
  apply existsb_exists in He as (b & Hin & Hb).
  by rewrite (find_none _ _ H b Hin) in Hb.
Qed.

Lemma mergeStock_record h liveStocks p w :
  mergeable p -> mergeStock h liveStocks p w = (Normal (mergeResult h liveStocks p), w).
Proof.
  intros (Hp & H50 & H200). unfold mergeStock, mergeResult.
  rewrite (bind_normal _ _ _ _ _ (findM_record liveStocks p w Hp)).
  destruct (baseOf liveStocks p) as [b|]; [|done].
  by rewrite !(bind_getString h p), !(bind_get p) by done.
Qed.

(** What a completed call of the merge callback returned, and what it
    needed of the partial record. *)
Lemma mergeStock_inv h liveStocks p w r w' :
  mergeStock h liveStocks p w = (Normal r, w') ->
  w' = w /\ r = mergeResult h liveStocks p /\
  (matched liveStocks p = true -> mergeable p).
Proof.
  intros H. unfold mergeStock in H. bind_inv H.
  apply findM_inv in H0 as (-> & ->). unfold mergeResult.
  destruct (baseOf liveStocks p) as [b|] eqn:Hb.
  - bind_inv H. apply getString_normal_inv in H0 as (Hp & H50 & -> & ->).
    bind_inv H. apply getString_normal_inv in H0 as (_ & H200 & -> & ->).
    rewrite !(bind_get p) in H by done. unfold ret in H. injection H as <- <-.
    by repeat split.
  - unfold ret in H. injection H as <- <-. split; [done|]. split; [done|].
    apply baseOf_None in Hb. congruence.
Qed.

Lemma mergeStock_some_inv h liveStocks p w e w' :
  mergeStock h liveStocks p w = (Normal (Some e), w') ->
  exists b, mergeable p /\ baseOf liveStocks p = Some b /\ e = overlay h b p.
Proof.
  intros H. apply mergeStock_inv in H as (_ & Hr & Hm). unfold mergeResult in Hr.
  destruct (baseOf liveStocks p) as [b|] eqn:Hb; [|done].
  injection Hr as ->. exists b. split; [|done].
  apply Hm. by apply baseOf_Some in Hb as (? & _).
Qed.

Lemma merge_all_inv h liveStocks stocks w merged w' :
  mapM (mergeStock h liveStocks) stocks w = (Normal merged, w') ->
  w' = w /\ merged = map (mergeResult h liveStocks) stocks /\
  Forall (fun p => matched liveStocks p = true -> mergeable p) stocks.
Proof.
  revert merged. induction stocks as [|p stocks IH]; intros merged H.
  - simpl in H. unfold ret in H. by injection H as <- <-.
  - rewrite mapM_cons in H.
    destruct (mergeStock h liveStocks p w) as [[r|e] w1] eqn:Hp; [|done].
    apply mergeStock_inv in Hp as (-> & -> & Hm).
    destruct (mapM (mergeStock h liveStocks) stocks w) as [[rs|e] w2] eqn:Hrest;
      [|done].
    injection H as <- <-. destruct (IH rs eq_refl) as (-> & -> & Hall).
    split; [done|]. split; [done|]. by constructor.
Qed.

Ltac not_elem_of_keys H :=
  repeat (apply elem_of_cons in H as [H|H]; [discriminate|]);
  by apply elem_of_nil in H.

Lemma overlay_mergedFrom h (b : Obj) p :
  strict_eq (field b "ticker") (prop p "ticker") = true ->
  convertible (prop p "sma_50") = true ->
  convertible (prop p "sma_200") = true ->
  mergedFrom h b p (overlay h b p).
Proof.
  intros Hb H50 H200.
  assert (Hother : forall k, k ∉ overriddenKeys ->
            overlay h b p !! k = match own_props p !! k with
                                 | Some v => Some v
                                 | None => b !! k
                                 end).
  { intros k Hk. unfold overlay, overriddenKeys in *.
    repeat (rewrite lookup_insert_ne; [|intros <-; apply Hk; repeat constructor]).
    rewrite lookup_union. destruct (own_props p !! k), (b !! k); done. }
  unfold mergedFrom. split; [|split; [|split; [|split; [|split]]]].
  - unfold field at 2. rewrite Hother by (intros Hin; not_elem_of_keys Hin).
    unfold prop, field in Hb. unfold field.
    destruct (own_props p !! "ticker") as [v|]; simpl in *; [done|].
    destruct (b !! "ticker") as [v|]; simpl in *; [|done].
    by destruct v.
  - unfold overlay. by simplify_map_eq.
  - unfold overlay. by simplify_map_eq.
  - exists (textOf h (prop p "sma_50")). split; [by apply ToString_textOf|].
    unfold overlay. by simplify_map_eq.
  - exists (textOf h (prop p "sma_200")). split; [by apply ToString_textOf|].
    unfold overlay. by simplify_map_eq.
  - done.
Qed.

(** The merged entities of a group, record by record. *)
Lemma merged_entities h liveStocks stocks :
  Forall (fun p => matched liveStocks p = true -> mergeable p) stocks ->
  Forall2 (fun p e => exists b, baseOf liveStocks p = Some b /\
                                b ∈ liveStocks /\ mergedFrom h b p e)
          (filter (fun p => matched liveStocks p = true) stocks)
          (filterBoolean (map (mergeResult h liveStocks) stocks)).
Proof.
  induction 1 as [|p stocks Hp _ IH]; [constructor|].
  cbn [map]. rewrite filterBoolean_cons, filter_cons. unfold mergeResult at 1.
  destruct (baseOf liveStocks p) as [b|] eqn:Hb.
  - pose proof (baseOf_Some _ _ _ Hb) as (Hm & Hin & Heq).
    rewrite decide_True by done. constructor; [|done].
    destruct (Hp Hm) as (_ & H50 & H200).
    exists b. split; [done|]. split; [done|]. by apply overlay_mergedFrom.
  - apply baseOf_None in Hb. by rewrite decide_False by congruence.
Qed.

Lemma Date_new_Some_convertible h v t : Date_new h v = Some t -> convertible v = true.
Proof.
  intros H. destruct (convertible v) eqn:Hc; [done|].
  by rewrite (Date_new_None h v Hc) in H.
Qed.

Lemma processSnapshot_inv h liveStocks g w s w' :
  processSnapshot h liveStocks g w = (Normal s, w') ->
  isRecord g /\ convertible (prop g "timestamp") = true /\
  exists stocks,
    prop g "stocks" = JArr stocks /\
    Forall (fun p => matched liveStocks p = true -> mergeable p) stocks /\
    s = snapshotOf h liveStocks g stocks /\ w' = w.
Proof.
  intros H. unfold processSnapshot in H.
  bind_inv H. apply get_normal_inv in H0 as (Hg & -> & ->).
  bind_inv H. apply convert_normal_inv in H0 as (Hd & ->).
  bind_inv H. apply get_normal_inv in H0 as (_ & -> & ->).
  bind_inv H. apply call_map_normal_inv in H0 as (stocks & Hs & Hm).
  apply merge_all_inv in Hm as (-> & -> & Hall).
  unfold ret in H. injection H as <- <-.
  split; [done|]. split; [by eapply Date_new_Some_convertible|].
  exists stocks. split; [done|]. split; [done|]. split; [|done].
  unfold snapshotOf, timeOf. by rewrite Hd.
Qed.

Lemma processSnapshot_fromGroup h liveStocks g w s w' :
  processSnapshot h liveStocks g w = (Normal s, w') -> fromGroup h liveStocks g s.
Proof.
  intros H. apply processSnapshot_inv in H as (_ & _ & stocks & Hs & Hall & -> & _).
  exists stocks. split; [done|]. by apply merged_entities.
Qed.

Lemma mapM_Forall2 {A B} (f : A -> M B) (R : A -> B -> Prop) l w out w' :
  (forall x wa y wb, f x wa = (Normal y, wb) -> R x y) ->
  mapM f l w = (Normal out, w') -> Forall2 R l out.
Proof.
  intros Hf. revert w out. induction l as [|x l IH]; intros w out H.
  - simpl in H. unfold ret in H. injection H as <- <-. constructor.
  - rewrite mapM_cons in H. destruct (f x w) as [[y|e] w1] eqn:Hx; [|done].
    destruct (mapM f l w1) as [[ys|e] w2] eqn:Hl; [|done].
    injection H as <- <-. constructor; eauto.
Qed.

(** C4 (as amended).  A fetch that resolves with a non-empty store was a
    successful response carrying a document, and the store is then, up to
    the order that the sort gives it, one snapshot per group of the
    document followed by the live snapshot.  The live snapshot holds the
    baseline, the normalised [stockData]: one entity per raw record, with
    the record's ticker.  The
    snapshot of a group holds, in the group's order, one merged entity for
    each partial record of the group that has a baseline entity of its
    ticker (so the snapshot's tickers are among the baseline's, and a
    baseline entity that the group does not mention is absent from it).
    In a merged entity the status and the signal are the partial record's,
    the moving averages are the partial record's converted to strings, and
    every other property is the partial record's when the record has it and
    is inherited unchanged from the baseline entity when not. *)
Theorem snapshot_entities_from_baseline h outcome now w store w' :
  fetchHistory h outcome now w = (Normal store, w') ->
  store <> [] ->
  exists text rawData items liveStocks snaps hist,
    outcome = success text rawData /\
    prop rawData "stockData" = JArr items /\
    (exists w1, call_map (JArr items) (normalizeItem h) w = (Normal liveStocks, w1)) /\
    Forall2 sameTicker items liveStocks /\
    groupsOf rawData = JArr snaps /\
    Forall2 (fromGroup h liveStocks) snaps hist /\
    store ≡ₚ hist ++ [liveSnapshot now liveStocks].
Proof.
  intros H Hne. apply fetchHistory_inv in H as [H|?]; [|done].
  apply fetchHistory_try_inv in H
    as (r & raw & items & live & w1 & snaps & hist
        & -> & Hok & Hjson & _ & Hsd & Hlive & Hsnaps & Hh & ->).
  exists (statusText r), raw, items, live, snaps, hist.
  split; [|split; [done|split; [by exists w1|split; [|split; [done|split]]]]].
  - unfold success. destruct r as [o t j]. simpl in *. by subst.
  - by apply normalize_all_inv in Hlive as (_ & _ & ?).
  - eapply mapM_Forall2; [|exact Hh].
    intros g wa s wb Hg. by eapply processSnapshot_fromGroup.
  - apply sort_perm.
Qed.

Lemma snapshot_entities_from_baseline_witness :
  exists text rawData items liveStocks snaps hist,
    Fixture.respond Fixture.repriced_document = success text rawData /\
    prop rawData "stockData" = JArr items /\
    (exists w1, call_map (JArr items) (normalizeItem Fixture.host) Fixture.world0
                = (Normal liveStocks, w1)) /\
    Forall2 sameTicker items liveStocks /\
    groupsOf rawData = JArr snaps /\
    Forall2 (fromGroup Fixture.host liveStocks) snaps hist /\
    store_of (fetchHistory Fixture.host
                (Fixture.respond Fixture.repriced_document)
                Fixture.now0 Fixture.world0)
      ≡ₚ hist ++ [liveSnapshot Fixture.now0 liveStocks].
Proof.
  apply (snapshot_entities_from_baseline Fixture.host
           (Fixture.respond Fixture.repriced_document) Fixture.now0 Fixture.world0
           _ (world_of (fetchHistory Fixture.host
                          (Fixture.respond Fixture.repriced_document)
                          Fixture.now0 Fixture.world0))).
  - vm_compute. reflexivity.
  - vm_compute. discriminate.
Defined.

(** C4 (as stated) fails: a historical snapshot holds only the entities
    that its group has a record for (here AAPL, of a baseline of AAPL and
    PFE), and a property other than status, signal and the moving averages
    that the record carries (here [current_price]) replaces the baseline's. *)
Lemma historical_snapshot_differs_from_baseline :
  map (fun s => tickers (data s))
      (store_of (fetchHistory Fixture.host
                   (Fixture.respond Fixture.repriced_document)
                   Fixture.now0 Fixture.world0))
  = [[JStr "AAPL"]; [JStr "AAPL"; JStr "PFE"]] /\
  map (fun s => map (fun o => field o "current_price") (data s))
      (store_of (fetchHistory Fixture.host
                   (Fixture.respond Fixture.repriced_document)
                   Fixture.now0 Fixture.world0))
  = [[JNum 100]; [JStr "150"; JStr "150"]].
Proof. split; vm_compute; reflexivity. Qed.

(* ===================================================================== *)
(** * Further properties of the code *)
(* ===================================================================== *)

(** ** [fetchHistory]: what processing can do *)

Lemma quiet_ret {A} (a : A) : quiet (ret a).
Proof. intros w r w' [= <- <-]. done. Qed.

Lemma quiet_throw {A} k : quiet (throw (A := A) (TypeError k)).
Proof. intros w r w' [= <- <-]. eauto. Qed.

Lemma quiet_convert {A} (r : option A) : quiet (convert r).
Proof. destruct r; [apply quiet_ret|apply quiet_throw]. Qed.

Lemma quiet_bind {A B} (c : M A) (k : A -> M B) :
  quiet c -> (forall a, quiet (k a)) -> quiet (bind c k).
Proof.
  intros Hc Hk w r w' H. unfold bind in H.
  destruct (c w) as [[a|e] w1] eqn:Hcw.
  - destruct (Hc _ _ _ Hcw) as [Hw1 _]. destruct (Hk a _ _ _ H) as [Hw' Hr].
    split; [congruence|done].
  - injection H as <- <-. by apply (Hc _ _ _ Hcw).
Qed.

Lemma quiet_get v k : quiet (get v k).
Proof. unfold get. destruct (nullish v); [apply quiet_throw|apply quiet_ret]. Qed.

Lemma quiet_random h : quiet (random h).
Proof. intros w r w' [= <- <-]. done. Qed.

Lemma quiet_mapM {A B} (f : A -> M B) l : (forall x, quiet (f x)) -> quiet (mapM f l).
Proof.
  intros Hf. induction l as [|x l IH]; simpl; [apply quiet_ret|].
  apply quiet_bind; [done|]. intros y.
  apply quiet_bind; [done|]. intros ys. apply quiet_ret.
Qed.

Lemma quiet_call_map {B} v (f : JsVal -> M B) :
  (forall x, quiet (f x)) -> quiet (call_map v f).
Proof. intros Hf. destruct v; try apply quiet_throw. by apply quiet_mapM. Qed.

Lemma quiet_findM {A} (p : A -> M bool) l : (forall x, quiet (p x)) -> quiet (findM p l).
Proof.
  intros Hp. induction l as [|x l IH]; simpl; [apply quiet_ret|].
  apply quiet_bind; [done|]. intros [|]; [apply quiet_ret|done].
Qed.

Ltac quiet_step :=
  first [ apply quiet_ret | apply quiet_throw | apply quiet_get
        | apply quiet_convert | apply quiet_random
        | apply quiet_bind; [|intros ?] ].

Lemma quiet_getString h v k : quiet (getString h v k).
Proof. unfold getString. repeat quiet_step. Qed.

Lemma quiet_generateMarketCap h ticker sector : quiet (generateMarketCap h ticker sector).
Proof.
  unfold generateMarketCap, randomCap.
  repeat match goal with |- context [if ?b then _ else _] => destruct b end;
    repeat quiet_step.
Qed.

Lemma quiet_normalizeItem h item : quiet (normalizeItem h item).
Proof.
  unfold normalizeItem.
  apply quiet_bind; [apply quiet_get|]. intros mc.
  apply quiet_bind.
  { destruct (truthy mc); [apply quiet_getString|].
    repeat (apply quiet_bind; [first [apply quiet_get|apply quiet_generateMarketCap]|intros ?]).
    apply quiet_ret. }
  intros cap.
  repeat (apply quiet_bind; [apply quiet_getString|intros ?]).
  apply quiet_ret.
Qed.

Lemma quiet_mergeStock h liveStocks p : quiet (mergeStock h liveStocks p).
Proof.
  unfold mergeStock. apply quiet_bind.
  { apply quiet_findM. intros s. repeat quiet_step. }
  intros [b|]; [|apply quiet_ret].
  repeat (apply quiet_bind; [first [apply quiet_getString|apply quiet_get]|intros ?]).
  apply quiet_ret.
Qed.

Lemma quiet_processSnapshot h liveStocks snap : quiet (processSnapshot h liveStocks snap).
Proof.
  unfold processSnapshot.
  apply quiet_bind; [apply quiet_get|]. intros ts.
  apply quiet_bind; [apply quiet_convert|]. intros date.
  apply quiet_bind; [apply quiet_get|]. intros stocks.
  apply quiet_bind; [|intros ?; apply quiet_ret].
  apply quiet_call_map. intros p. apply quiet_mergeStock.
Qed.

Lemma quiet_fetchHistory_try h text rawData now :
  quiet (fetchHistory_try h (success text rawData) now).
Proof.
  unfold fetchHistory_try, success. cbn [ok json negb].
  apply quiet_bind; [apply quiet_get|]. intros stockData.
  apply quiet_bind; [apply quiet_call_map; intros; apply quiet_normalizeItem|].
  intros liveStocks.
  apply quiet_bind; [apply quiet_get|]. intros snaps.
  apply quiet_bind; [apply quiet_call_map; intros; apply quiet_processSnapshot|].
  intros hist. apply quiet_ret.
Qed.

Lemma sort_not_nil {A} (cmp : A -> A -> option Z) l : l <> [] -> sort cmp l <> [].
Proof.
  intros Hl Hs. apply Hl. apply Permutation_nil_r. rewrite <- Hs.
  symmetry. apply sort_perm.
Qed.

(** X1.  Once the response is [ok] and its body is JSON, [fetchHistory]
    ends in one of two ways: with a non-empty store and nothing written to
    the console, or with the empty store and exactly one console entry, a
    [TypeError] raised while the document was processed. *)
Theorem fetchHistory_store_or_error h text rawData now w :
  (store_of (fetchHistory h (success text rawData) now w) <> [] /\
   console (world_of (fetchHistory h (success text rawData) now w)) = console w) \/
  (store_of (fetchHistory h (success text rawData) now w) = [] /\
   exists k,
     console (world_of (fetchHistory h (success text rawData) now w))
     = console w ++ [("Error fetching market history:", TypeError k)]).
Proof.
  unfold fetchHistory, try_catch.
  destruct (fetchHistory_try h (success text rawData) now w) as [[store|e] w1] eqn:H.
  - left. destruct (quiet_fetchHistory_try h text rawData now _ _ _ H) as [Hc _].
    split; [|done]. simpl.
    apply fetchHistory_try_inv in H
      as (r & raw & items & live & w2 & snaps & hist & _ & _ & _ & _ & _ & _ & _ & _ & ->).
    apply sort_not_nil. by destruct hist.
  - right. destruct (quiet_fetchHistory_try h text rawData now _ _ _ H) as [Hc [k ->]].
    split; [done|]. exists k. unfold world_of. simpl. by rewrite Hc.
Qed.

(** ** [fetchHistory] on well-formed and on malformed documents *)

Lemma mapM_pure {A B} (f : A -> M B) (g : A -> B) (P : A -> Prop) l w :
  (forall x w, P x -> f x w = (Normal (g x), w)) ->
  Forall P l -> mapM f l w = (Normal (map g l), w).
Proof.
  intros Hf Hl. induction Hl as [|x l Hx _ IH]; [done|].
  rewrite mapM_cons, (Hf x w Hx), IH. done.
Qed.

Lemma processSnapshot_wellFormed h liveStocks g stocks w :
  isRecord g -> convertible (prop g "timestamp") = true ->
  prop g "stocks" = JArr stocks -> Forall mergeable stocks ->
  processSnapshot h liveStocks g w = (Normal (snapshotOf h liveStocks g stocks), w).
Proof.
  intros Hg Hts Hs Hrec. unfold processSnapshot.
  rewrite (bind_get g) by done.
  rewrite (bind_convert _ _ _ _ (Date_new_timeOf h _ Hts)).
  rewrite (bind_get g) by done. rewrite Hs. cbn [call_map].
  erewrite bind_normal; [reflexivity|].
  apply (mapM_pure _ _ mergeable); [|done].
  intros p w0 Hp. by apply mergeStock_record.
Qed.

Lemma processSnapshot_malformed h liveStocks g w :
  malformedGroup g -> exists e w', processSnapshot h liveStocks g w = (Throw e, w').
Proof.
  intros Hbad. unfold processSnapshot.
  destruct (nullish g) eqn:Hg.
  - unfold bind, get. rewrite Hg. unfold throw. eauto.
  - destruct Hbad as [Hbad|Hbad]; [congruence|].
    rewrite (bind_get g) by done.
    destruct (Date_new h (prop g "timestamp")) as [date|] eqn:Hd;
      [|unfold bind, convert, throw; eauto].
    rewrite (bind_convert _ date) by done.
    rewrite (bind_get g) by done.
    destruct (prop g "stocks") eqn:Hs; try solve [unfold bind, call_map, throw; eauto].
    by destruct (Hbad l).
Qed.

Lemma mapM_throws {A B} (f : A -> M B) l1 x l2 w :
  (forall w, exists e w', f x w = (Throw e, w')) ->
  exists e w', mapM f (l1 ++ x :: l2) w = (Throw e, w').
Proof.
  intros Hx. revert w. induction l1 as [|y l1 IH]; intros w.
  - rewrite app_nil_l, mapM_cons. destruct (Hx w) as (e & w' & ->). eauto.
  - rewrite <- app_comm_cons, mapM_cons.
    destruct (f y w) as [[b|e] w1]; [|eauto].
    destruct (IH w1) as (e & w' & ->). eauto.
Qed.

Lemma fetchHistory_of_throw h outcome now w e w1 :
  fetchHistory_try h outcome now w = (Throw e, w1) ->
  store_of (fetchHistory h outcome now w) = [].
Proof. intros H. unfold fetchHistory, try_catch. by rewrite H. Qed.

Lemma Forall2_wellFormed_processed h liveStocks snaps w :
  Forall wellFormedGroup snaps ->
  exists hist,
    mapM (processSnapshot h liveStocks) snaps w = (Normal hist, w) /\
    map (fun s => Some (timestamp s)) hist
    = map (fun g => Date_new h (prop g "timestamp")) snaps.
Proof.
  induction 1 as [|g snaps (Hg & Hts & stocks & Hs & Hrec) _ (hist & IH & IHt)].
  - by exists [].
  - exists (snapshotOf h liveStocks g stocks :: hist).
    rewrite mapM_cons, (processSnapshot_wellFormed h liveStocks g stocks w), IH by done.
    split; [done|]. simpl. by rewrite IHt, (Date_new_timeOf h _ Hts).
Qed.

(** X2.  On a document whose [stockData] is an array of normalizable raw
    records and whose [historicalSnapshots] is an array of well-formed
    groups (each an object with a convertible timestamp and an array of
    partial records with convertible moving averages), the fetch succeeds
    and drops no group: the store has one snapshot per group and the live
    one, their timestamps being the groups' converted timestamps and the
    time of the fetch (in sorted order), and nothing is logged.  A group
    with no records, with none that matches, or with a timestamp that is
    no date stays in the store. *)
Theorem fetchHistory_keeps_every_group h text (doc : Obj) items snaps now w :
  doc !! "stockData" = Some (JArr items) ->
  doc !! "historicalSnapshots" = Some (JArr snaps) ->
  Forall normalizable items ->
  Forall wellFormedGroup snaps ->
  exists store w',
    fetchHistory h (success text (JObj doc)) now w = (Normal store, w') /\
    length store = S (length snaps) /\
    map (fun s => Some (timestamp s)) store
      ≡ₚ map (fun g => Date_new h (prop g "timestamp")) snaps ++ [Some (Some now)] /\
    console w' = console w.
Proof.
  intros Hsd Hhs Hitems Hsnaps.
  destruct (normalize_all_normal h items w Hitems) as (live & w1 & Hm).
  pose proof (normalize_all_inv h items w live w1 Hm) as (_ & Hc & _).
  destruct (Forall2_wellFormed_processed h live snaps w1 Hsnaps) as (hist & Hh & Ht).
  eexists _, w1. split.
  - unfold fetchHistory, try_catch.
    by rewrite (fetchHistory_try_object h text doc items snaps now w Hsd Hhs), Hm, Hh.
  - split; [|split; [|done]].
    + rewrite sort_perm, length_app,
        <- (length_map (fun s => Some (timestamp s)) hist), Ht, length_map.
      simpl. lia.
    + rewrite sort_perm, map_app, Ht. done.
Qed.

Lemma fetchHistory_keeps_every_group_witness :
  exists store w',
    fetchHistory Fixture.host
      (success "OK" (JObj (Examples.feed [Examples.later; Examples.earlier])))
      Fixture.now0 Fixture.world0 = (Normal store, w') /\
    length store = 3%nat /\
    map (fun s => Some (timestamp s)) store
      ≡ₚ map (fun g => Date_new Fixture.host (prop g "timestamp"))
             [Examples.later; Examples.earlier] ++ [Some (Some Fixture.now0)] /\
    console w' = console Fixture.world0.
Proof.
  apply (fetchHistory_keeps_every_group Fixture.host "OK"
           (Examples.feed [Examples.later; Examples.earlier]) Fixture.baseline
           [Examples.later; Examples.earlier] Fixture.now0 Fixture.world0).
  - vm_compute. reflexivity.
  - vm_compute. reflexivity.
  - repeat constructor.
  - constructor; [|constructor; [|constructor]].
    + split; [reflexivity|]. split; [reflexivity|].
      exists [Fixture.delta "AAPL" "BEARISH" 144].
      split; [vm_compute; reflexivity|repeat constructor].
    + split; [reflexivity|]. split; [reflexivity|].
      exists [Fixture.delta "PFE" "BULLISH" 31].
      split; [vm_compute; reflexivity|repeat constructor].
Defined.

Lemma fetchHistory_try_groups_throw h text (doc : Obj) ss1 g ss2 now w :
  doc !! "historicalSnapshots" = Some (JArr (ss1 ++ g :: ss2)) ->
  malformedGroup g ->
  exists e w', fetchHistory_try h (success text (JObj doc)) now w = (Throw e, w').
Proof.
  intros Hhs Hbad. unfold fetchHistory_try, success. cbn [ok json negb].
  rewrite (bind_get (JObj doc)) by done. unfold bind at 1.
  destruct (call_map (prop (JObj doc) "stockData") (normalizeItem h) w)
    as [[live|e] w1]; [|eauto].
  rewrite (bind_get (JObj doc)) by done.
  unfold prop, field. cbn [own_props]. rewrite Hhs.
  cbn [default from_option id truthy call_map]. unfold bind.
  destruct (mapM_throws (processSnapshot h live) ss1 g ss2 w1) as (e & w' & ->);
    [|eauto].
  intros w2. by apply processSnapshot_malformed.
Qed.

(** X3.  One malformed group spoils the whole fetch: when any element of
    [historicalSnapshots] is [null] or has no array of [stocks], the
    exception raised on it reaches the [catch] block and [fetchHistory]
    resolves with the empty store, whatever the baseline and the other
    groups are. *)
Theorem malformed_group_empties_store h text (doc : Obj) ss1 g ss2 now w :
  doc !! "historicalSnapshots" = Some (JArr (ss1 ++ g :: ss2)) ->
  malformedGroup g ->
  store_of (fetchHistory h (success text (JObj doc)) now w) = [].
Proof.
  intros Hhs Hbad.
  destruct (fetchHistory_try_groups_throw h text doc ss1 g ss2 now w Hhs Hbad)
    as (e & w' & H).
  by eapply fetchHistory_of_throw.
Qed.

Lemma malformed_group_empties_store_witness :
  store_of (fetchHistory Fixture.host
              (success "OK"
                 (JObj (Examples.feed
                          ([Examples.later] ++ Examples.stockless :: [Examples.earlier]))))
              Fixture.now0 Fixture.world0) = [].
Proof.
  apply (malformed_group_empties_store Fixture.host "OK"
           (Examples.feed ([Examples.later] ++ Examples.stockless :: [Examples.earlier]))
           [Examples.later] Examples.stockless [Examples.earlier]
           Fixture.now0 Fixture.world0).
  - vm_compute. reflexivity.
  - right. intros stocks. vm_compute. discriminate.
Defined.

Lemma normalizeItem_null h item w :
  nullish item = true -> exists e w', normalizeItem h item w = (Throw e, w').
Proof.
  intros Hn. unfold normalizeItem, bind, get. rewrite Hn. unfold throw. eauto.
Qed.

(** X4.  A defective baseline spoils the whole fetch too: when
    [stockData] is missing or is no array, or is an array that holds a
    [null], [fetchHistory] resolves with the empty store (not even the live
    snapshot is built), whatever the document is otherwise. *)
Theorem defective_baseline_empties_store h text rawData now w :
  baselineDefect rawData ->
  store_of (fetchHistory h (success text rawData) now w) = [].
Proof.
  intros Hbad.
  enough (exists e w', fetchHistory_try h (success text rawData) now w = (Throw e, w'))
    as (e & w' & H) by (by eapply fetchHistory_of_throw).
  unfold fetchHistory_try, success. cbn [ok json negb].
  destruct (nullish rawData) eqn:Hraw.
  { unfold bind, get. rewrite Hraw. unfold throw. eauto. }
  rewrite (bind_get rawData) by done.
  destruct (prop rawData "stockData") as [| | | | |items|] eqn:Hsd;
    try solve [unfold bind, call_map, throw; eauto].
  destruct (Hbad items Hsd) as (item & Hin & Hnull).
  apply list_elem_of_split in Hin as (is1 & is2 & ->).
  cbn [call_map]. unfold bind at 1.
  destruct (mapM_throws (normalizeItem h) is1 item is2 w) as (e & w' & ->); [|eauto].
  intros w2. by apply normalizeItem_null.
Qed.

Lemma defective_baseline_empties_store_witness :
  store_of (fetchHistory Fixture.host
              (success "OK"
                 (Fixture.document
                    [JNull; Fixture.rawStock "AAPL" "Technology" "BULLISH" 145] []))
              Fixture.now0 Fixture.world0) = [].
Proof.
  apply (defective_baseline_empties_store Fixture.host "OK"
           (Fixture.document
              [JNull; Fixture.rawStock "AAPL" "Technology" "BULLISH" 145] [])
           Fixture.now0 Fixture.world0).
  intros items Hitems. vm_compute in Hitems. injection Hitems as <-.
  exists JNull. split; [repeat constructor|reflexivity].
Defined.



(** ** Normalisation and merging, field by field *)

Lemma normalizeItem_eq h item w :
  normalizable item ->
  exists cap w',
    normalizeItem h item w = (Normal (normalizedWith h item (JStr cap)), w') /\
    (truthy (prop item "market_cap") = true ->
     cap = textOf h (prop item "market_cap") /\ w' = w) /\
    (truthy (prop item "market_cap") = false ->
     random_calls w' = S (random_calls w)).
Proof.
  intros [Hitem Hkeys]. unfold normalizedKeys in Hkeys.
  repeat (apply Forall_cons in Hkeys as [? Hkeys]).
  unfold normalizeItem.
  rewrite (bind_get item) by done.
  destruct (truthy (prop item "market_cap")) eqn:Hmc.
  - exists (textOf h (prop item "market_cap")), w.
    rewrite !(bind_getString h item) by done. by repeat split.
  - destruct (generateMarketCap_normal h (prop item "ticker") (prop item "sector") w)
      as [cap Hc].
    assert (Hdraw :
      (let! ticker := get item "ticker" in
       let! sector := get item "sector" in
       let! cap := generateMarketCap h ticker sector in
       ret (JStr cap)) w
      = (Normal (JStr cap),
         {| random_calls := S (random_calls w); console := console w |})).
    { rewrite !(bind_get item) by done. by rewrite (bind_normal _ _ _ _ _ Hc). }
    eexists cap, _. rewrite (bind_normal _ _ _ _ _ Hdraw).
    rewrite !(bind_getString h item) by done. by repeat split.
Qed.

(** A record that is not normalizable makes the callback throw, and what
    it throws is a [TypeError]. *)
Lemma normalizeItem_throws h item w :
  ~ normalizable item ->
  exists k w', normalizeItem h item w = (Throw (TypeError k), w') /\
               console w' = console w.
Proof.
  intros Hnot. destruct (normalizeItem h item w) as [[o|e] w'] eqn:H.
  - destruct Hnot. by eapply normalizeItem_normalizable.
  - destruct (quiet_normalizeItem h item w _ _ H) as [Hc [k ->]]. eauto.
Qed.

(** X6.  [normalizeItem] on a normalizable raw record (not [null], its
    eight converted properties convertible) turns each of the seven
    numeric-looking properties into text, [String] of the record's value,
    which for a property the record lacks is the text ["undefined"]; the
    market capitalisation is text as well: [String] of the record's value
    when that is truthy, with no call of [Math.random], and otherwise a
    value drawn with exactly one call.  On any other record the callback
    throws a [TypeError], writing nothing to the console. *)
Theorem normalizeItem_text h item w :
  (normalizable item ->
   exists o w',
     normalizeItem h item w = (Normal o, w') /\
     (forall k, k ∈ textKeys ->
        exists s, ToString h (prop item k) = Some s /\ o !! k = Some (JStr s)) /\
     (forall k, k ∈ textKeys -> own_props item !! k = None ->
                o !! k = Some (JStr "undefined")) /\
     (exists cap, o !! "market_cap" = Some (JStr cap)) /\
     (truthy (prop item "market_cap") = true ->
      (exists s, ToString h (prop item "market_cap") = Some s /\
                 o !! "market_cap" = Some (JStr s)) /\
      w' = w) /\
     (truthy (prop item "market_cap") = false ->
      random_calls w' = S (random_calls w))) /\
  (~ normalizable item ->
   exists k w', normalizeItem h item w = (Throw (TypeError k), w') /\
                console w' = console w).
Proof.
  split; [|apply normalizeItem_throws].
  intros Hitem.
  destruct (normalizeItem_eq h item w Hitem) as (cap & w' & Hn & Hkept & Hdrawn).
  assert (Hconv : forall k, k ∈ normalizedKeys -> convertible (prop item k) = true).
  { destruct Hitem as [_ Hkeys]. by apply Forall_forall. }
  assert (Htext : forall k, k ∈ textKeys ->
            normalizedWith h item (JStr cap) !! k
            = Some (JStr (textOf h (prop item k)))).
  { intros k Hk. unfold textKeys in Hk. unfold normalizedWith.
    repeat (apply elem_of_cons in Hk as [->|Hk]; [by simplify_map_eq|]).
    by apply elem_of_nil in Hk. }
  assert (Hsub : forall k, k ∈ textKeys -> k ∈ normalizedKeys).
  { intros k Hk. unfold normalizedKeys. by right. }
  assert (Hcap : normalizedWith h item (JStr cap) !! "market_cap" = Some (JStr cap)).
  { unfold normalizedWith. by simplify_map_eq. }
  eexists _, w'. split; [exact Hn|]. split; [|split; [|split; [|split]]].
  - intros k Hk. exists (textOf h (prop item k)).
    split; [apply ToString_textOf; by apply Hconv, Hsub|by apply Htext].
  - intros k Hk Hnone. rewrite Htext by done.
    unfold prop, field. by rewrite Hnone.
  - eauto.
  - intros Ht. destruct (Hkept Ht) as [-> ->]. split; [|done].
    exists (textOf h (prop item "market_cap")). split; [|done].
    apply ToString_textOf, Hconv. by left.
  - done.
Qed.

Lemma normalizeItem_text_witness :
  exists o w',
    normalizeItem Fixture.host (Fixture.rawStock "AAPL" "Technology" "BULLISH" 145)
                  Fixture.world0 = (Normal o, w') /\
    (forall k, k ∈ textKeys ->
       exists s,
         ToString Fixture.host
                  (prop (Fixture.rawStock "AAPL" "Technology" "BULLISH" 145) k)
         = Some s /\ o !! k = Some (JStr s)) /\
    (forall k, k ∈ textKeys ->
       own_props (Fixture.rawStock "AAPL" "Technology" "BULLISH" 145) !! k = None ->
       o !! k = Some (JStr "undefined")) /\
    (exists cap, o !! "market_cap" = Some (JStr cap)) /\
    (truthy (prop (Fixture.rawStock "AAPL" "Technology" "BULLISH" 145) "market_cap") = true ->
     (exists s,
        ToString Fixture.host
                 (prop (Fixture.rawStock "AAPL" "Technology" "BULLISH" 145) "market_cap")
        = Some s /\ o !! "market_cap" = Some (JStr s)) /\
     w' = Fixture.world0) /\
    (truthy (prop (Fixture.rawStock "AAPL" "Technology" "BULLISH" 145) "market_cap") = false ->
     random_calls w' = S (random_calls Fixture.world0)).
Proof.
  apply (proj1 (normalizeItem_text Fixture.host
                  (Fixture.rawStock "AAPL" "Technology" "BULLISH" 145)
                  Fixture.world0)).
  repeat constructor.
Defined.

Lemma overlay_ticker h (b : Obj) p :
  strict_eq (field b "ticker") (prop p "ticker") = true ->
  field (overlay h b p) "ticker" = prop p "ticker".
Proof.
  intros Hb. unfold field at 1, overlay.
  rewrite !lookup_insert_ne, lookup_union by done.
  unfold prop, field in *.
  destruct (own_props p !! "ticker") as [v|]; simpl in *; [by destruct (b !! "ticker")|].
  destruct (b !! "ticker") as [v|]; simpl in *; [|done]. by destruct v.
Qed.

Lemma merged_tickers h liveStocks stocks :
  tickers (filterBoolean (map (mergeResult h liveStocks) stocks))
  = map (fun p => prop p "ticker")
        (filter (fun p => matched liveStocks p = true) stocks).
Proof.
  induction stocks as [|p stocks IH]; [done|].
  cbn [map]. rewrite filterBoolean_cons, filter_cons. unfold mergeResult at 1.
  destruct (baseOf liveStocks p) as [b|] eqn:Hb.
  - apply baseOf_Some in Hb as (Hm & _ & Hb).
    rewrite decide_True by done. cbn [tickers map]. fold (tickers).
    unfold tickers in *. cbn [map]. by rewrite IH, overlay_ticker.
  - apply baseOf_None in Hb. rewrite decide_False by congruence. done.
Qed.

(** X7.  For a group that is an object with a convertible timestamp and
    an array of partial records that are not [null] and have convertible
    moving averages, the entities of the historical snapshot are the
    group's partial records that have a baseline stock of their ticker, one
    entity per such record, in the group's order and with the record's
    ticker: a record without a match contributes nothing, and a ticker
    listed twice appears twice. *)
Theorem snapshot_entities_are_matched_records h liveStocks g stocks w :
  isRecord g ->
  convertible (prop g "timestamp") = true ->
  prop g "stocks" = JArr stocks ->
  Forall mergeable stocks ->
  exists s,
    processSnapshot h liveStocks g w = (Normal s, w) /\
    tickers (data s)
    = map (fun p => prop p "ticker")
          (filter (fun p => matched liveStocks p = true) stocks) /\
    (length (data s) <= length stocks)%nat.
Proof.
  intros Hg Hts Hs Hrec. exists (snapshotOf h liveStocks g stocks).
  split; [by apply processSnapshot_wellFormed|].
  assert (Ht := merged_tickers h liveStocks stocks).
  split; [done|]. cbn [snapshotOf data].
  rewrite <- (length_map (fun o => field o "ticker")). fold (tickers).
  unfold tickers in *. rewrite Ht, length_map. apply length_filter.
Qed.

Lemma snapshot_entities_are_matched_records_witness :
  exists s,
    processSnapshot Fixture.host [Examples.aapl; Examples.pfe] Examples.later
                    Fixture.world0 = (Normal s, Fixture.world0) /\
    tickers (data s)
    = map (fun p => prop p "ticker")
          (filter (fun p => matched [Examples.aapl; Examples.pfe] p = true)
                  [Fixture.delta "AAPL" "BEARISH" 144]) /\
    (length (data s) <= length [Fixture.delta "AAPL" "BEARISH" 144])%nat.
Proof.
  apply (snapshot_entities_are_matched_records Fixture.host
           [Examples.aapl; Examples.pfe] Examples.later
           [Fixture.delta "AAPL" "BEARISH" 144] Fixture.world0).
  - reflexivity.
  - reflexivity.
  - vm_compute. reflexivity.
  - repeat constructor.
Defined.

(** X8.  A merged entity takes its status and signal from the partial
    record alone: when the record has no [status] the entity's status is
    [undefined], whatever the baseline's was, so [calculateSentiment] does
    not count it as bullish; and a moving average that the record lacks
    becomes the text ["undefined"]. *)
Theorem mergeStock_missing_fields h liveStocks p w e w' :
  mergeStock h liveStocks p w = (Normal (Some e), w') ->
  field e "status" = prop p "status" /\
  field e "signal" = prop p "signal" /\
  (own_props p !! "status" = None ->
   field e "status" = JUndef /\ Analytics.isBullish e = false) /\
  (own_props p !! "sma_50" = None -> e !! "sma_50" = Some (JStr "undefined")) /\
  (own_props p !! "sma_200" = None -> e !! "sma_200" = Some (JStr "undefined")).
Proof.
  intros H. apply mergeStock_some_inv in H as (b & Hp & Hb & ->).
  assert (Hst : field (overlay h b p) "status" = prop p "status").
  { unfold field at 1, overlay. by simplify_map_eq. }
  assert (Hsg : field (overlay h b p) "signal" = prop p "signal").
  { unfold field at 1, overlay. by simplify_map_eq. }
  repeat split; try done.
  - rewrite Hst. unfold prop, field. by rewrite H.
  - unfold Analytics.isBullish. rewrite Hst. unfold prop, field. by rewrite H.
  - intros Hn. unfold overlay, prop, field. rewrite Hn. by simplify_map_eq.
  - intros Hn. unfold overlay, prop, field. rewrite Hn. by simplify_map_eq.
Qed.

Lemma mergeStock_missing_fields_witness :
  field (overlay Fixture.host Examples.aapl Examples.bare) "status"
    = prop Examples.bare "status" /\
  field (overlay Fixture.host Examples.aapl Examples.bare) "signal"
    = prop Examples.bare "signal" /\
  (own_props Examples.bare !! "status" = None ->
   field (overlay Fixture.host Examples.aapl Examples.bare) "status" = JUndef /\
   Analytics.isBullish (overlay Fixture.host Examples.aapl Examples.bare) = false) /\
  (own_props Examples.bare !! "sma_50" = None ->
   overlay Fixture.host Examples.aapl Examples.bare !! "sma_50"
   = Some (JStr "undefined")) /\
  (own_props Examples.bare !! "sma_200" = None ->
   overlay Fixture.host Examples.aapl Examples.bare !! "sma_200"
   = Some (JStr "undefined")).
Proof.
  apply (mergeStock_missing_fields Fixture.host [Examples.aapl; Examples.pfe]
           Examples.bare Fixture.world0
           (overlay Fixture.host Examples.aapl Examples.bare) Fixture.world0).
  vm_compute. reflexivity.
Defined.

(** ** The live snapshot comes last *)



Lemma at_index_last {A} (l : list A) y :
  at_index (l ++ [y]) (length_Z (l ++ [y]) - 1) = Some y.
Proof.
  unfold length_Z. rewrite length_app. simpl length.
  replace (Z.of_nat (length l + 1) - 1) with (Z.of_nat (length l)) by lia.
  rewrite at_index_nat. by apply list_lookup_middle.
Qed.




(** ** Playback, tick by tick *)

Lemma ticks_playing st (n : nat) :
  isPlaying st = true ->
  timeIndex st + Z.of_nat n <= length_Z (history st) - 1 ->
  ticks n st = setTimeIndex (timeIndex st + Z.of_nat n) st.
Proof.
  revert st. induction n as [|n IH]; intros st Hp Hle.
  - destruct st as [hs i ld pl]. unfold setTimeIndex. cbn.
    f_equal. lia.
  - cbn [ticks]. rewrite tick_advance; [|done|lia].
    rewrite IH; [|done|simpl; lia].
    destruct st as [hs i ld pl]. unfold setTimeIndex. cbn [history timeIndex loading isPlaying].
    f_equal. lia.
Qed.

(** X10.  Playback from a position [i <= length - 1]: after [n] ticks the
    position is [min (i + n) (length - 1)], it never passes the newest
    snapshot; playback is still running exactly when [n <= length - 1 - i],
    so it halts on the tick after the one that reaches the end; the
    history is never changed.  A stopped controller ignores every tick.
    (On the empty store, where the position is -1, the first tick halts
    playback and the position stays -1.) *)
Theorem playback_after_ticks st (n : nat) :
  timeIndex st <= length_Z (history st) - 1 ->
  history (ticks n st) = history st /\
  (isPlaying st = true ->
   timeIndex (ticks n st)
     = Z.min (timeIndex st + Z.of_nat n) (length_Z (history st) - 1) /\
   isPlaying (ticks n st)
     = (Z.of_nat n <=? length_Z (history st) - 1 - timeIndex st)) /\
  (isPlaying st = false -> ticks n st = st).
Proof.
  intros Hle. split; [|split].
  - clear Hle. revert st. induction n as [|n IH]; intros st; [done|].
    simpl. rewrite IH. unfold tick.
    destruct (isPlaying st); [|done].
    by destruct (length_Z (history st) - 1 <=? timeIndex st).
  - intros Hp.
    destruct (Z.le_gt_cases (Z.of_nat n) (length_Z (history st) - 1 - timeIndex st))
      as [Hn|Hn].
    + rewrite ticks_playing by (done || lia). simpl.
      rewrite Z.min_l by lia. split; [done|].
      rewrite Hp. symmetry. by apply Z.leb_le.
    + set (m := Z.to_nat (length_Z (history st) - 1 - timeIndex st)).
      assert (Hm : Z.of_nat m = length_Z (history st) - 1 - timeIndex st)
        by (unfold m; lia).
      replace n with (m + S (n - S m))%nat by lia.
      assert (Hsplit : forall a b s, ticks (a + b) s = ticks b (ticks a s)).
      { induction a as [|a IHa]; intros b s; [done|]. simpl. apply IHa. }
      rewrite Hsplit, (ticks_playing st m) by (done || lia).
      cbn [ticks]. rewrite tick_at_end by (simpl; (done || lia)).
      rewrite ticks_stopped by done. simpl.
      rewrite Z.min_r by lia. split; [lia|].
      symmetry. apply Z.leb_gt. lia.
  - intros Hp. by apply ticks_stopped.
Qed.

Lemma playback_after_ticks_witness :
  history (ticks 3 Fixture.playingAtOldest) = history Fixture.playingAtOldest /\
  (isPlaying Fixture.playingAtOldest = true ->
   timeIndex (ticks 3 Fixture.playingAtOldest)
     = Z.min (timeIndex Fixture.playingAtOldest + Z.of_nat 3)
             (length_Z (history Fixture.playingAtOldest) - 1) /\
   isPlaying (ticks 3 Fixture.playingAtOldest)
     = (Z.of_nat 3 <=? length_Z (history Fixture.playingAtOldest) - 1
                       - timeIndex Fixture.playingAtOldest)) /\
  (isPlaying Fixture.playingAtOldest = false ->
   ticks 3 Fixture.playingAtOldest = Fixture.playingAtOldest).
Proof.
  apply (playback_after_ticks Fixture.playingAtOldest 3).
  vm_compute. discriminate.
Defined.

(** ** The slider of the footer *)

Lemma findIndex_bounds {A} (p : A -> bool) l :
  -1 <= findIndex p l < length_Z l.
Proof.
  unfold length_Z. induction l as [|x l IH]; simpl; [lia|].
  destruct (p x); [lia|]. destruct (Z.ltb_spec (findIndex p l) 0); lia.
Qed.

Lemma length_Z_pos {A} (l : list A) : l <> [] -> 0 < length_Z l.
Proof. unfold length_Z. destruct l; [done|]. simpl length. lia. Qed.

Lemma at_index_in_range {A} (l : list A) i :
  0 <= i < length_Z l -> is_Some (at_index l i).
Proof.
  unfold length_Z, at_index. intros Hi.
  destruct (Z.ltb_spec i 0); [lia|]. apply lookup_lt_is_Some. lia.
Qed.

Lemma filteredTimeIndex_bounds store i window :
  window <> [] -> 0 <= filteredTimeIndex store i window <= length_Z window - 1.
Proof.
  intros Hw. pose proof (length_Z_pos window Hw) as Hpos.
  unfold filteredTimeIndex.
  destruct (Z.eqb_spec (length_Z window) 0); [lia|].
  destruct (at_index store i) as [cur|]; [|lia].
  pose proof (findIndex_bounds (sameTime cur) window).
  destruct (Z.leb_spec 0 (findIndex (sameTime cur) window)); lia.
Qed.

(** X11.  The value given to the slider is always one of its positions:
    whenever the position of the hook is a valid index of the store, or the
    24 hour window has a snapshot (then whatever the position is), the
    displayed index lies between 0 and the slider's maximum and points at
    a snapshot of the displayed history. *)
Theorem slider_value_in_range store now i :
  store <> [] ->
  filteredHistory store now <> [] \/ 0 <= i <= length_Z store - 1 ->
  let window := filteredHistory store now in
  let shown := displayHistory store window in
  let value := displayIndex window (filteredTimeIndex store i window) i in
  0 <= value <= maxIndex shown /\ is_Some (at_index shown value).
Proof.
  intros Hne Hcase window shown value.
  assert (Hrange : 0 <= value <= length_Z shown - 1 /\ shown <> []).
  { unfold value, shown, displayIndex, displayHistory.
    destruct (Z.ltb_spec 0 (length_Z window)) as [Hpos|Hzero].
    - assert (Hw : window <> []) by (intros E; rewrite E in Hpos; done).
      split; [by apply filteredTimeIndex_bounds|done].
    - destruct Hcase as [Hw|Hi]; [|done].
      pose proof (length_Z_pos window Hw). lia. }
  destruct Hrange as [Hv Hs]. pose proof (length_Z_pos shown Hs) as Hpos.
  split.
  - unfold maxIndex. destruct (Z.ltb_spec 0 (length_Z shown)); lia.
  - apply at_index_in_range. lia.
Qed.

Lemma slider_value_in_range_witness :
  let window := filteredHistory Examples.threeDays Fixture.now0 in
  let shown := displayHistory Examples.threeDays window in
  let value := displayIndex window (filteredTimeIndex Examples.threeDays 0 window) 0 in
  0 <= value <= maxIndex shown /\ is_Some (at_index shown value).
Proof.
  apply (slider_value_in_range Examples.threeDays Fixture.now0 0).
  - discriminate.
  - left. vm_compute. discriminate.
Defined.

(** X12.  Moving the slider to any of its positions, while the window has
    a snapshot, never throws: it stops playback and sets the position of
    the hook to a valid index of the full store, whose snapshot has the
    timestamp of the snapshot shown at the slider's position. *)
Theorem slider_change_selects_shown store now j st :
  let window := filteredHistory store now in
  window <> [] ->
  0 <= j <= maxIndex (displayHistory store window) ->
  exists (k : nat) s shown,
    handleTimeIndexChange store window j st
      = Normal (setTimeIndex (Z.of_nat k) (setIsPlaying false st)) /\
    store !! k = Some s /\
    at_index window j = Some shown /\
    timestamp s = timestamp shown /\
    is_Some (timestamp s).
Proof.
  intros window Hw Hj.
  pose proof (length_Z_pos window Hw) as Hpos.
  assert (Hjw : 0 <= j < length_Z window).
  { unfold maxIndex, displayHistory in Hj.
    destruct (Z.ltb_spec 0 (length_Z window)); [|lia].
    destruct (Z.ltb_spec 0 (length_Z window)); lia. }
  destruct (at_index_in_range window j Hjw) as [y Hy].
  pose proof (at_index_elem_of _ _ _ Hy) as Hin.
  apply elem_of_filteredHistory in Hin as [Hge Hin].
  destruct (timestamp y) as [t|] eqn:Ht; [|done].
  destruct (findIndex_found (sameTime y) store y Hin) as (k & s & Hk & Hs & Hps);
    [by eapply sameTime_refl|].
  exists k, s, y. repeat split; try done.
  - unfold handleTimeIndexChange. fold window.
    destruct (Z.eqb_spec (length_Z window) 0); [lia|].
    rewrite Hy, Hk. destruct (Z.leb_spec 0 (Z.of_nat k)); [done|lia].
  - rewrite Ht. by eapply sameTime_true.
  - rewrite (sameTime_true y s t Ht Hps). by eexists.
Qed.

Lemma slider_change_selects_shown_witness :
  exists (k : nat) s shown,
    handleTimeIndexChange Examples.threeDays
      (filteredHistory Examples.threeDays Fixture.now0) 1 initial
      = Normal (setTimeIndex (Z.of_nat k) (setIsPlaying false initial)) /\
    Examples.threeDays !! k = Some s /\
    at_index (filteredHistory Examples.threeDays Fixture.now0) 1 = Some shown /\
    timestamp s = timestamp shown /\
    is_Some (timestamp s).
Proof.
  apply (slider_change_selects_shown Examples.threeDays Fixture.now0 1 initial).
  - vm_compute. discriminate.
  - vm_compute. split; discriminate.
Defined.

Lemma filteredHistory_nil store now :
  Forall (outsideWindow now) store -> filteredHistory store now = [].
Proof.
  intros Hall. destruct (filteredHistory store now) as [|s l] eqn:Hw; [done|].
  assert (Hin : s ∈ filteredHistory store now) by (rewrite Hw; left).
  apply elem_of_filteredHistory in Hin as [Hge Hin].
  rewrite Forall_forall in Hall. specialize (Hall s Hin).
  unfold outsideWindow in Hall. congruence.
Qed.

(** X13.  When no snapshot is within the last 24 hours (all are older, or
    have no numeric timestamp), the footer shows the full history instead
    of an empty timeline, with the slider at the hook's own position; but
    the slider is inert: moving it to any position changes nothing, neither
    the position nor playback. *)
Theorem slider_inert_when_window_empty store now i j st :
  Forall (outsideWindow now) store ->
  displayHistory store (filteredHistory store now) = store /\
  displayIndex (filteredHistory store now)
               (filteredTimeIndex store i (filteredHistory store now)) i = i /\
  handleTimeIndexChange store (filteredHistory store now) j st = Normal st.
Proof.
  intros Hall. by rewrite (filteredHistory_nil store now Hall).
Qed.

Lemma slider_inert_when_window_empty_witness :
  displayHistory [Fixture.stale] (filteredHistory [Fixture.stale] Fixture.now0)
    = [Fixture.stale] /\
  displayIndex (filteredHistory [Fixture.stale] Fixture.now0)
               (filteredTimeIndex [Fixture.stale] 0
                  (filteredHistory [Fixture.stale] Fixture.now0)) 0 = 0 /\
  handleTimeIndexChange [Fixture.stale]
    (filteredHistory [Fixture.stale] Fixture.now0) 5 initial = Normal initial.
Proof.
  apply (slider_inert_when_window_empty [Fixture.stale] Fixture.now0 0 5 initial).
  repeat constructor.
Defined.

Lemma findIndex_first {A} (p : A -> bool) l (j : nat) y :
  l !! j = Some y -> p y = true ->
  (forall (i : nat) z, l !! i = Some z -> p z = true -> i = j) ->
  findIndex p l = Z.of_nat j.
Proof.
  revert j. induction l as [|x l IH]; intros j Hy Hp Huniq; [done|].
  simpl. destruct (p x) eqn:Hx.
  - by rewrite <- (Huniq 0%nat x eq_refl Hx).
  - destruct j as [|j]; [simpl in Hy; congruence|].
    rewrite (IH j Hy Hp).
    + destruct (Z.ltb_spec (Z.of_nat j) 0); lia.
    + intros i z Hz Hpz. specialize (Huniq (S i) z Hz Hpz). lia.
Qed.

(** X14.  Where the timestamps of the window are pairwise distinct, the
    slider stays where it was put: after a move to position [j] the window
    index computed from the hook's new position is [j] again. *)
Theorem slider_round_trip store now (j : nat) st st' :
  let window := filteredHistory store now in
  NoDup (map timestamp window) ->
  is_Some (window !! j) ->
  handleTimeIndexChange store window (Z.of_nat j) st = Normal st' ->
  filteredTimeIndex store (timeIndex st') window = Z.of_nat j /\
  isPlaying st' = false.
Proof.
  intros window Hnd [y Hy] Hh.
  assert (Hin : y ∈ window) by (apply list_elem_of_lookup; eauto).
  pose proof Hin as Hin'. apply elem_of_filteredHistory in Hin' as [Hge Hins].
  destruct (timestamp y) as [t|] eqn:Ht; [|done].
  destruct (findIndex_found (sameTime y) store y Hins) as (k & s & Hk & Hs & Hps);
    [by eapply sameTime_refl|].
  unfold handleTimeIndexChange in Hh.
  rewrite (length_Z_nonzero window y Hin), at_index_nat, Hy, Hk in Hh.
  destruct (Z.leb_spec 0 (Z.of_nat k)); [|lia]. injection Hh as <-.
  split; [|done]. cbn [timeIndex setTimeIndex].
  unfold filteredTimeIndex.
  rewrite (length_Z_nonzero window y Hin), at_index_nat, Hs.
  pose proof (sameTime_true y s t Ht Hps) as Hts.
  rewrite (findIndex_first (sameTime s) window j y Hy).
  - destruct (Z.leb_spec 0 (Z.of_nat j)); [done|lia].
  - by eapply sameTime_refl.
  - intros i z Hz Hpz. pose proof (sameTime_true s z t Hts Hpz) as Htz.
    apply (NoDup_lookup (map timestamp window) i j (Some t)); [done| |].
    + rewrite list_lookup_fmap, Hz. simpl. by rewrite Htz.
    + rewrite list_lookup_fmap, Hy. simpl. by rewrite Ht.
Qed.

Lemma slider_round_trip_witness :
  filteredTimeIndex Examples.threeDays
    (timeIndex (setTimeIndex 2 (setIsPlaying false initial)))
    (filteredHistory Examples.threeDays Fixture.now0) = Z.of_nat 1 /\
  isPlaying (setTimeIndex 2 (setIsPlaying false initial)) = false.
Proof.
  apply (slider_round_trip Examples.threeDays Fixture.now0 1 initial
           (setTimeIndex 2 (setIsPlaying false initial))).
  - vm_compute. constructor; [|constructor; [|constructor]].
    + intros H. inversion H as [|? ? ? H']; inversion H'.
    + intros H. inversion H.
  - exists Fixture.newest. vm_compute. reflexivity.
  - vm_compute. reflexivity.
Defined.

Lemma ascending_tail x store : ascending (x :: store) -> ascending store.
Proof. intros H i a b Ha Hb. by apply (H (S i) a b). Qed.

Lemma ascending_from_head x store t :
  ascending (x :: store) -> Forall timed store -> timestamp x = Some t ->
  Forall (fun s => exists u, timestamp s = Some u /\ t <= u) store.
Proof.
  revert x t. induction store as [|y store IH]; intros x t Hasc Htimed Hx; [done|].
  apply Forall_cons in Htimed as [[u Hu] Htimed].
  assert (Htu : t <= u).
  { specialize (Hasc 0%nat x y eq_refl eq_refl). unfold notAfter in Hasc.
    rewrite Hx, Hu in Hasc. simpl in Hasc. lia. }
  constructor; [eauto|].
  eapply Forall_impl; [apply (IH y u); [by eapply ascending_tail|done..]|].
  intros s (v & Hv & Huv). exists v. split; [done|lia].
Qed.

Lemma filter_all {A} (P : A -> Prop) `{forall x, Decision (P x)} (l : list A) :
  Forall P l -> filter P l = l.
Proof.
  induction 1 as [|x l Hx _ IH]; [done|].
  by rewrite filter_cons_True, IH.
Qed.

(** X15.  In a store that is in ascending order of numeric timestamps (as
    [fetchHistory] returns it when no timestamp is [NaN]) the 24 hour window
    is the most recent end of the store: the snapshots that the filter
    rejects are exactly the first ones, and the window is what is left
    after dropping them. *)
Theorem window_is_suffix store now :
  ascending store ->
  Forall timed store ->
  filteredHistory store now
  = drop (length store - length (filteredHistory store now)) store.
Proof.
  intros Hasc Htimed.
  enough (exists k, filteredHistory store now = drop k store) as [k Hk].
  { assert (Hlen := f_equal length Hk). rewrite length_drop in Hlen.
    destruct (decide (k <= length store)%nat).
    - by replace (length store - length (filteredHistory store now))%nat with k by lia.
    - rewrite Hk at 1. rewrite Hlen. by rewrite !drop_ge by lia. }
  rewrite filteredHistory_filter.
  induction store as [|x store IH]; [by exists 0%nat|].
  apply Forall_cons in Htimed as [[t Hx] Htimed].
  destruct (decide (time_ge (timestamp x) (now - dayMs) = true)) as [Hge|Hlt].
  - exists 0%nat. rewrite drop_0. apply filter_all. constructor; [done|].
    eapply Forall_impl; [by eapply ascending_from_head|].
    intros s (u & Hu & Htu). rewrite Hx in Hge. rewrite Hu. simpl in *. lia.
  - destruct (IH (ascending_tail _ _ Hasc) Htimed) as [k Hk].
    exists (S k). by rewrite filter_cons_False.
Qed.

Lemma window_is_suffix_witness :
  filteredHistory Examples.threeDays Fixture.now0
  = drop (length Examples.threeDays
          - length (filteredHistory Examples.threeDays Fixture.now0))
         Examples.threeDays.
Proof.
  apply (window_is_suffix Examples.threeDays Fixture.now0).
  - intros [|[|[|i]]] a b Ha Hb; simplify_eq/=; vm_compute; reflexivity.
  - repeat constructor; eexists; reflexivity.
Defined.

(** X16.  "Reset to Live" works from every state: it stops playback and
    puts the position on the last snapshot, after which the view is not
    time travelling, the current entities are those of the last snapshot of
    the store, and a tick changes nothing. *)
Theorem resetToLive_returns_to_newest st :
  isPlaying (resetToLive st) = false /\
  timeIndex (resetToLive st) = length_Z (history st) - 1 /\
  history (resetToLive st) = history st /\
  isTimeTraveling (resetToLive st) = false /\
  (forall s, last (history st) = Some s -> stocks (resetToLive st) = data s) /\
  tick (resetToLive st) = resetToLive st.
Proof.
  repeat split.
  - unfold isTimeTraveling, resetToLive. cbn [history timeIndex setTimeIndex setIsPlaying].
    rewrite Z.ltb_irrefl. apply andb_false_r.
  - intros s Hs. apply last_Some in Hs as [l Hl].
    unfold stocks, resetToLive. cbn [history timeIndex setTimeIndex setIsPlaying].
    rewrite Hl, at_index_last.
    match goal with
    | |- context [?a =? 0] => destruct (Z.eqb_spec a 0) as [E|_]; [|done]
    end.
    unfold length_Z in E. rewrite length_app in E. simpl in E. lia.
Qed.

(** ** The stock filters *)

Import JsText useStockFilters.

Lemma prefix_empty s : String.prefix "" s = true.
Proof. by destruct s. Qed.

Lemma prefix_refl s : String.prefix s s = true.
Proof.
  induction s as [|c s IH]; [done|]. simpl.
  destruct (Ascii.ascii_dec c c); [done|congruence].
Qed.

Lemma includesText_empty s : includesText s "" = true.
Proof. destruct s; simpl; by rewrite ?prefix_empty. Qed.

Lemma includesText_refl s : includesText s s = true.
Proof. destruct s; [done|]. cbn [includesText]. by rewrite prefix_refl. Qed.

Lemma filterC_throw_inv (f : Filters) stocks e :
  filteredStocks f stocks = Throw e -> e = TypeError "toLowerCase".
Proof.
  unfold filteredStocks. induction stocks as [|s stocks IH]; [done|].
  cbn [filterC]. destruct (matches f s) as [b|e'] eqn:Hm.
  - destruct (filterC (matches f) stocks) as [r|e'']; [done|].
    intros [= <-]. by apply IH.
  - intros [= <-]. unfold matches in Hm.
    destruct (field s "ticker"); by simplify_eq/=.
Qed.

Lemma matches_text f s t :
  field s "ticker" = JStr t ->
  matches f s =
  Normal (includesText (toLowerCase t) (toLowerCase (searchTerm f))
          && (String.eqb (selectedSector f) "All"
              || strict_eq (field s "sector") (JStr (selectedSector f)))
          && (String.eqb (statusText (statusFilter f)) "ALL"
              || strict_eq (field s "status") (JStr (statusText (statusFilter f))))).
Proof. unfold matches. by intros ->. Qed.

Lemma filteredStocks_text f stocks :
  Forall hasTextTicker stocks ->
  exists r, filteredStocks f stocks = Normal r /\
            forall s, s ∈ r <-> s ∈ stocks /\ matches f s = Normal true.
Proof.
  unfold filteredStocks. induction 1 as [|s stocks [t Ht] _ (r & IH & IHr)].
  - exists []. split; [done|]. intros s. split; [by intros ?%elem_of_nil|].
    by intros [?%elem_of_nil _].
  - pose proof (matches_text f s t Ht) as Hm.
    destruct (matches f s) as [b|e] eqn:Hb; [|done]. clear Hm.
    cbn [filterC]. rewrite Hb, IH. destruct b.
    + exists (s :: r). split; [done|].
      intros s'. rewrite !elem_of_cons, IHr. split.
      * intros [->|[? ?]]; auto.
      * intros [[->|?] ?]; auto.
    + exists r. split; [done|].
      intros s'. rewrite elem_of_cons, IHr. split; [intros [? ?]; auto|].
      intros [[->|?] Hs']; [congruence|done].
Qed.

(** X17.  With the filters cleared (empty search, status ALL, sector All,
    the state the "Clear filters" button sets) every stock is shown, in the
    order of the snapshot, provided each ticker is a string. *)
Theorem cleared_filters_show_all f stocks :
  Forall hasTextTicker stocks ->
  filteredStocks (App.clearFilters f) stocks = Normal stocks.
Proof.
  unfold filteredStocks. induction 1 as [|s stocks [t Ht] _ IH]; [done|].
  cbn [filterC]. rewrite (matches_text _ s t Ht), IH.
  cbn [App.clearFilters searchTerm selectedSector statusFilter statusText toLowerCase].
  by rewrite includesText_empty.
Qed.

Lemma cleared_filters_show_all_witness :
  filteredStocks (App.clearFilters (onlySector "Energy")) Examples.board
  = Normal Examples.board.
Proof.
  apply (cleared_filters_show_all (onlySector "Energy") Examples.board).
  repeat constructor; eexists; reflexivity.
Defined.

(** X18.  A stock whose ticker is not a string (a record that came
    without ticker, which normalisation keeps) makes the filter throw a
    [TypeError], whatever the filters are, as [stock.ticker.toLowerCase()]
    is evaluated for every stock before the other criteria. *)
Theorem filter_throws_without_text_ticker f stocks s :
  s ∈ stocks ->
  ~ hasTextTicker s ->
  filteredStocks f stocks = Throw (TypeError "toLowerCase").
Proof.
  intros Hin Hs.
  enough (exists e, filteredStocks f stocks = Throw e) as [e He].
  { by rewrite He, (filterC_throw_inv f stocks e He). }
  unfold filteredStocks. induction stocks as [|x stocks IH]; [by apply elem_of_nil in Hin|].
  cbn [filterC]. apply elem_of_cons in Hin as [->|Hin].
  - unfold matches. destruct (field x "ticker") eqn:Ht; cbn [callToLowerCase]; eauto.
    destruct Hs. unfold hasTextTicker, isText. eauto.
  - destruct (matches f x) as [b|e]; [|eauto].
    destruct (IH Hin) as [e ->]. eauto.
Qed.

Lemma filter_throws_without_text_ticker_witness :
  filteredStocks initialFilters [Examples.aapl; Examples.unnamed; Examples.pfe]
  = Throw (TypeError "toLowerCase").
Proof.
  apply (filter_throws_without_text_ticker initialFilters
           [Examples.aapl; Examples.unnamed; Examples.pfe] Examples.unnamed).
  - repeat constructor.
  - intros [t Ht]. vm_compute in Ht. discriminate.
Defined.

Lemma strict_eq_text v t : strict_eq v (JStr t) = true -> v = JStr t.
Proof.
  destruct v; try done. simpl. intros H. by apply String.eqb_eq in H as ->.
Qed.

Lemma matches_true_inv f s :
  matches f s = Normal true -> hasTextTicker s /\ passes f s.
Proof.
  unfold matches. destruct (field s "ticker") as [| | | |t| |] eqn:Ht; try done.
  cbn [callToLowerCase]. intros [= H].
  apply andb_prop in H as [H Hstatus]. apply andb_prop in H as [_ Hsector].
  split; [by exists t|]. split.
  - intros Hne. apply orb_prop in Hsector as [Hall|Hsec].
    + by apply String.eqb_eq in Hall.
    + by apply strict_eq_text.
  - intros Hne. apply orb_prop in Hstatus as [Hall|Hst].
    + apply String.eqb_eq in Hall. by destruct (statusFilter f).
    + by apply strict_eq_text.
Qed.

(** X19.  When the filter completes, its result is a selection of the
    stocks in their order, every ticker of the input was a string, and no
    shown stock is of another sector than the selected one, or of another
    status than the selected one. *)
Theorem filteredStocks_sound f stocks r :
  filteredStocks f stocks = Normal r ->
  sublist r stocks /\
  Forall hasTextTicker stocks /\
  Forall (passes f) r.
Proof.
  unfold filteredStocks. revert r. induction stocks as [|s stocks IH]; intros r H.
  - injection H as <-. by repeat constructor.
  - cbn [filterC] in H. destruct (matches f s) as [b|e] eqn:Hm; [|done].
    destruct (filterC (matches f) stocks) as [r'|e]; [|done]. injection H as <-.
    destruct (IH r' eq_refl) as (Hsub & Htext & Hpass).
    assert (Hs : hasTextTicker s).
    { unfold matches in Hm. destruct (field s "ticker") as [| | | |t| |] eqn:Ht; try done.
      unfold hasTextTicker, isText. eauto. }
    destruct b.
    + apply matches_true_inv in Hm as [_ Hp].
      split; [by constructor|]. split; by constructor.
    + split; [by constructor|]. split; [by constructor|done].
Qed.

Lemma filteredStocks_sound_witness :
  sublist [Examples.aapl; Examples.msft] Examples.board /\
  Forall hasTextTicker Examples.board /\
  Forall (passes (onlySector "Technology")) [Examples.aapl; Examples.msft].
Proof.
  apply (filteredStocks_sound (onlySector "Technology") Examples.board
           [Examples.aapl; Examples.msft]).
  vm_compute. reflexivity.
Defined.

(** X20.  The search is insensitive to letter case: provided every
    stock's ticker is a string (the filter throws otherwise), searching for
    a stock's own ticker, in any mixture of upper and lower case and with
    the other filters cleared, completes and finds that stock. *)
Theorem search_finds_own_ticker stocks s t term :
  Forall hasTextTicker stocks ->
  s ∈ stocks ->
  field s "ticker" = JStr t ->
  toLowerCase term = toLowerCase t ->
  exists r, filteredStocks (onlySearch term) stocks = Normal r /\ s ∈ r.
Proof.
  intros Htext Hin Ht Hterm.
  destruct (filteredStocks_text (onlySearch term) stocks Htext) as (r & Hr & Hmem).
  exists r. split; [done|]. apply Hmem. split; [done|].
  rewrite (matches_text _ s t Ht).
  cbn [onlySearch searchTerm selectedSector statusFilter statusText].
  by rewrite Hterm, includesText_refl.
Qed.

Lemma search_finds_own_ticker_witness :
  exists r,
    filteredStocks (onlySearch "aapl") Examples.board = Normal r /\
    Examples.aapl ∈ r.
Proof.
  apply (search_finds_own_ticker Examples.board Examples.aapl "AAPL" "aapl").
  - repeat constructor; eexists; reflexivity.
  - repeat constructor.
  - reflexivity.
  - reflexivity.
Defined.

Lemma setAdd_extends seen l :
  exists r, setAdd seen l = seen ++ r /\ sublist r l.
Proof.
  revert seen. induction l as [|x l IH]; intros seen.
  - exists []. by rewrite app_nil_r.
  - cbn [setAdd]. destruct (existsb (sameValueZero x) seen).
    + destruct (IH seen) as (r & -> & Hr). exists r. split; [done|by constructor].
    + destruct (IH (seen ++ [x])) as (r & -> & Hr). exists (x :: r).
      split; [by rewrite <- app_assoc|by constructor].
Qed.

Lemma existsb_sameValueZero_text x seen :
  isText x -> Forall isText seen ->
  existsb (sameValueZero x) seen = true <-> x ∈ seen.
Proof.
  intros [a ->] Hseen. rewrite existsb_exists. split.
  - intros (y & Hin & Hy). apply list_elem_of_In in Hin.
    rewrite Forall_forall in Hseen. destruct (Hseen y Hin) as [b ->].
    simpl in Hy. apply String.eqb_eq in Hy. by subst.
  - intros Hin. exists (JStr a). split; [by apply list_elem_of_In|].
    simpl. apply String.eqb_refl.
Qed.

Lemma setAdd_text seen l :
  Forall isText seen -> Forall isText l -> NoDup seen ->
  NoDup (setAdd seen l) /\
  forall v, v ∈ setAdd seen l <-> v ∈ seen \/ v ∈ l.
Proof.
  intros Hseen Hl. revert seen Hseen.
  induction Hl as [|x l Hx _ IH]; intros seen Hseen Hnd.
  - split; [done|]. intros v. split; [by left|]. by intros [?|?%elem_of_nil].
  - cbn [setAdd]. destruct (existsb (sameValueZero x) seen) eqn:Hex.
    + apply existsb_sameValueZero_text in Hex; [|done..].
      destruct (IH seen Hseen Hnd) as [Hnd' Hmem]. split; [done|].
      intros v. rewrite Hmem, elem_of_cons. split; [intros [?|?]; auto|].
      intros [?|[->|?]]; auto.
    + assert (Hnot : x ∉ seen).
      { intros Hin. apply (existsb_sameValueZero_text x seen Hx Hseen) in Hin.
        congruence. }
      destruct (IH (seen ++ [x])) as [Hnd' Hmem].
      * apply Forall_app. split; [done|by constructor].
      * apply NoDup_app. split; [done|]. split; [|apply NoDup_singleton].
        intros y Hy ?%list_elem_of_singleton. by subst.
      * split; [done|]. intros v.
        rewrite Hmem, elem_of_app, list_elem_of_singleton, elem_of_cons. tauto.
Qed.

(** X21.  The sector options: ['All'] first, then the sectors of the
    stocks, each exactly once and in the order in which the stocks carry
    them (given that the sectors are strings). *)
Theorem sectors_distinct_and_complete stocks :
  Forall hasTextSector stocks ->
  exists l,
    sectors stocks = JStr "All" :: l /\
    NoDup l /\
    sublist l (map (fun s => field s "sector") stocks) /\
    (forall v, v ∈ l <-> exists s, s ∈ stocks /\ field s "sector" = v).
Proof.
  intros Htext. exists (setAdd [] (map (fun s => field s "sector") stocks)).
  split; [done|].
  destruct (setAdd_text [] (map (fun s => field s "sector") stocks)) as [Hnd Hmem].
  { constructor. }
  { apply Forall_fmap. eapply Forall_impl; [exact Htext|]. by intros s Hs. }
  { constructor. }
  split; [done|]. split.
  - destruct (setAdd_extends [] (map (fun s => field s "sector") stocks))
      as (r & -> & Hr). done.
  - intros v. rewrite Hmem. split.
    + intros [?%elem_of_nil|Hin]; [done|].
      apply list_elem_of_fmap in Hin as (s & -> & Hs). eauto.
    + intros (s & Hs & <-). right. apply list_elem_of_fmap. eauto.
Qed.

Lemma sectors_distinct_and_complete_witness :
  exists l,
    sectors Examples.board = JStr "All" :: l /\
    NoDup l /\
    sublist l (map (fun s => field s "sector") Examples.board) /\
    (forall v, v ∈ l <-> exists s, s ∈ Examples.board /\ field s "sector" = v).
Proof.
  apply (sectors_distinct_and_complete Examples.board).
  repeat constructor; eexists; reflexivity.
Defined.

(** X22.  Every sector that the dropdown offers as a string selects at
    least one stock: provided every stock's ticker is a string (the filter
    throws otherwise), and with the other filters cleared, choosing an
    offered sector that is a string other than ['All'] completes and shows
    a non-empty list, all of that sector.  (A sector that is no string is
    offered too, but the selection, a string, never equals it.) *)
Theorem offered_sector_shows_stocks stocks sector :
  Forall hasTextTicker stocks ->
  JStr sector ∈ sectors stocks ->
  sector <> "All" ->
  exists r,
    filteredStocks (onlySector sector) stocks = Normal r /\
    r <> [] /\
    Forall (fun s => field s "sector" = JStr sector) r.
Proof.
  intros Htext Hin Hne.
  destruct (filteredStocks_text (onlySector sector) stocks Htext) as (r & Hr & Hmem).
  exists r. split; [done|].
  assert (Hs : exists s, s ∈ stocks /\ field s "sector" = JStr sector).
  { unfold sectors in Hin. apply elem_of_cons in Hin as [[= ?]|Hin]; [done|].
    destruct (setAdd_extends [] (map (fun s => field s "sector") stocks))
      as (l & Hl & Hsub).
    rewrite Hl in Hin. simpl in Hin.
    apply (fun H => elem_of_sublist _ _ _ H Hsub) in Hin.
    apply list_elem_of_fmap in Hin as (s & Hsec & Hs). eauto. }
  destruct Hs as (s & Hs & Hsec). split.
  - assert (Hsr : s ∈ r).
    { apply Hmem. split; [done|].
      rewrite Forall_forall in Htext. destruct (Htext s Hs) as [t Ht].
      rewrite (matches_text _ s t Ht), Hsec.
      cbn [onlySector searchTerm selectedSector statusFilter statusText toLowerCase].
      rewrite includesText_empty. cbn [strict_eq].
      by rewrite String.eqb_refl, orb_true_r. }
    intros ->. by apply elem_of_nil in Hsr.
  - apply Forall_forall. intros s' Hs'. apply Hmem in Hs' as [_ Hm].
    apply matches_true_inv in Hm as [_ [Hp _]]. by apply Hp.
Qed.

Lemma offered_sector_shows_stocks_witness :
  exists r,
    filteredStocks (onlySector "Healthcare") Examples.board = Normal r /\
    r <> [] /\
    Forall (fun s => field s "sector" = JStr "Healthcare") r.
Proof.
  apply (offered_sector_shows_stocks Examples.board "Healthcare").
  - repeat constructor; eexists; reflexivity.
  - vm_compute. repeat constructor.
  - discriminate.
Defined.

Import useWatchlist.

Lemma existsb_eqb_elem_of (t : string) (l : list string) :
  existsb (String.eqb t) l = true <-> t ∈ l.
Proof.
  rewrite existsb_exists. split.
  - intros (y & Hin & Hy). apply String.eqb_eq in Hy. subst.
    by apply list_elem_of_In.
  - intros Hin. exists t. split; [by apply list_elem_of_In|apply String.eqb_refl].
Qed.

Lemma filter_other_absent (t : string) (l : list string) :
  t ∉ l -> filter (fun x => x <> t) l = l.
Proof.
  induction l as [|x l IH]; [done|]. intros Hnot.
  apply not_elem_of_cons in Hnot as [Hne Hnot].
  rewrite filter_cons_True; [|congruence]. by rewrite IH.
Qed.

Lemma toggleWatchlist_absent (t : string) (prev : list string) :
  t ∉ prev -> toggleWatchlist t prev = prev ++ [t].
Proof.
  intros Hnot. unfold toggleWatchlist.
  destruct (existsb (String.eqb t) prev) eqn:Hex; [|done].
  by apply existsb_eqb_elem_of in Hex.
Qed.

Lemma toggleWatchlist_present (t : string) (prev : list string) :
  t ∈ prev -> toggleWatchlist t prev = filter (fun x => x <> t) prev.
Proof.
  intros Hin. unfold toggleWatchlist.
  apply existsb_eqb_elem_of in Hin. by rewrite Hin.
Qed.

Lemma toggleWatchlist_self (t : string) (prev : list string) :
  t ∈ toggleWatchlist t prev <-> t ∉ prev.
Proof.
  destruct (decide (t ∈ prev)) as [Hin|Hnot].
  - rewrite (toggleWatchlist_present t prev Hin), list_elem_of_filter. tauto.
  - rewrite (toggleWatchlist_absent t prev Hnot), elem_of_app, list_elem_of_singleton.
    tauto.
Qed.

Lemma toggleWatchlist_other (t u : string) (prev : list string) :
  u <> t -> u ∈ toggleWatchlist t prev <-> u ∈ prev.
Proof.
  intros Hne. destruct (decide (t ∈ prev)) as [Hin|Hnot].
  - rewrite (toggleWatchlist_present t prev Hin), list_elem_of_filter. tauto.
  - rewrite (toggleWatchlist_absent t prev Hnot), elem_of_app, list_elem_of_singleton.
    tauto.
Qed.

(** X23.  Starring toggles exactly one ticker: after [toggleWatchlist] the
    ticker is on the watchlist exactly when it was not before, every other
    ticker is on it exactly when it was before, and a watchlist without
    repetitions stays without repetitions. *)
Theorem toggleWatchlist_flips_one (ticker : string) (prev : list string) :
  (ticker ∈ toggleWatchlist ticker prev <-> ticker ∉ prev) /\
  (forall t, t <> ticker -> t ∈ toggleWatchlist ticker prev <-> t ∈ prev) /\
  (NoDup prev -> NoDup (toggleWatchlist ticker prev)).
Proof.
  split; [apply toggleWatchlist_self|].
  split; [intros t Hne; by apply toggleWatchlist_other|].
  intros Hnd. destruct (decide (ticker ∈ prev)) as [Hin|Hnot].
  - rewrite (toggleWatchlist_present ticker prev Hin). by apply NoDup_filter.
  - rewrite (toggleWatchlist_absent ticker prev Hnot). apply NoDup_app.
    split; [done|]. split; [|apply NoDup_singleton].
    intros y Hy ?%list_elem_of_singleton. by subst.
Qed.

(** X24.  Starring and unstarring: toggling a ticker that was not on the
    watchlist twice gives the watchlist back unchanged; toggling one that
    was on it twice removes every occurrence and puts the ticker once at
    the end. *)
Theorem toggleWatchlist_twice (ticker : string) (prev : list string) :
  (ticker ∉ prev ->
     toggleWatchlist ticker (toggleWatchlist ticker prev) = prev) /\
  (ticker ∈ prev ->
     toggleWatchlist ticker (toggleWatchlist ticker prev)
       = filter (fun t => t <> ticker) prev ++ [ticker]).
Proof.
  split.
  - intros Hnot. rewrite (toggleWatchlist_absent ticker prev Hnot).
    rewrite toggleWatchlist_present.
    + rewrite filter_app, (filter_other_absent ticker prev Hnot).
      rewrite filter_cons_False; [by rewrite app_nil_r|]. by intros H.
    + apply elem_of_app. right. by apply list_elem_of_singleton.
  - intros Hin. rewrite (toggleWatchlist_present ticker prev Hin).
    apply toggleWatchlist_absent. rewrite list_elem_of_filter. tauto.
Qed.

Lemma includes_text (wl : list string) (t : string) :
  includes wl (JStr t) = true <-> t ∈ wl.
Proof. apply existsb_eqb_elem_of. Qed.

Lemma includes_inv (wl : list string) (v : JsVal) :
  includes wl v = true -> exists t, v = JStr t /\ t ∈ wl.
Proof.
  destruct v; try done. intros H. apply includes_text in H. eauto.
Qed.

Lemma includes_toggle_other (wl : list string) (t : string) (v : JsVal) :
  v <> JStr t -> includes (toggleWatchlist t wl) v = includes wl v.
Proof.
  intros Hne. destruct v as [| | | |u| |]; try done.
  assert (Hut : u <> t) by congruence.
  destruct (includes wl (JStr u)) eqn:Hi.
  - apply includes_text. apply toggleWatchlist_other; [done|]. by apply includes_text.
  - destruct (includes (toggleWatchlist t wl) (JStr u)) eqn:Hi'; [|done].
    apply includes_text in Hi'. apply toggleWatchlist_other in Hi'; [|done].
    apply includes_text in Hi'. congruence.
Qed.

Lemma includes_toggle_self (wl : list string) (t : string) :
  includes (toggleWatchlist t wl) (JStr t) = negb (includes wl (JStr t)).
Proof.
  destruct (includes wl (JStr t)) eqn:Hi; simpl.
  - destruct (includes (toggleWatchlist t wl) (JStr t)) eqn:Hi'; [|done].
    apply includes_text in Hi'. apply toggleWatchlist_self in Hi'.
    apply includes_text in Hi. done.
  - apply includes_text. apply toggleWatchlist_self. intros Hin.
    apply includes_text in Hin. congruence.
Qed.

(** X25.  The grid's two sections split the filtered stocks: "My
    Watchlist" followed by the remaining assets holds every filtered stock
    exactly as often as the filtered list does, no stock is in both
    sections, each section keeps the filtered order, and a stock is in the
    watchlist section only if its ticker is a string on the watchlist. *)
Theorem sections_partition_filtered (shown : list Obj) (watchlist : list string) :
  App.watchlistStocks shown watchlist ++ App.otherStocks shown watchlist ≡ₚ shown /\
  (forall s, s ∈ App.watchlistStocks shown watchlist ->
             s ∉ App.otherStocks shown watchlist) /\
  sublist (App.watchlistStocks shown watchlist) shown /\
  sublist (App.otherStocks shown watchlist) shown /\
  (forall s, s ∈ App.watchlistStocks shown watchlist ->
             exists t, field s "ticker" = JStr t /\ t ∈ watchlist).
Proof.
  unfold App.watchlistStocks, App.otherStocks. split; [|split; [|split; [|split]]].
  - induction shown as [|s l IH]; [done|].
    rewrite !filter_cons. destruct (includes watchlist (field s "ticker")); simpl.
    + destruct (decide (true = true)); [|done].
      destruct (decide (false = true)); [done|]. simpl. by rewrite IH.
    + destruct (decide (false = true)); [done|].
      destruct (decide (true = true)); [|done].
      rewrite <- Permutation_middle. by rewrite IH.
  - intros s [Hs _]%list_elem_of_filter [Hs' _]%list_elem_of_filter.
    rewrite Hs in Hs'. done.
  - apply sublist_filter.
  - apply sublist_filter.
  - intros s [Hs _]%list_elem_of_filter. by apply includes_inv.
Qed.

(** X26.  Clicking the star of a shown stock moves that stock to the other
    section and moves no stock with a different ticker: after
    [toggleWatchlist] with the stock's ticker, the stock is in the
    watchlist section exactly when it was among the other assets before,
    and any stock whose ticker is not that string stays where it was. *)
Theorem star_moves_stock (shown : list Obj) (watchlist : list string)
    (s : Obj) (t : string) :
  s ∈ shown ->
  field s "ticker" = JStr t ->
  (s ∈ App.watchlistStocks shown (toggleWatchlist t watchlist)
     <-> s ∈ App.otherStocks shown watchlist) /\
  (s ∈ App.otherStocks shown (toggleWatchlist t watchlist)
     <-> s ∈ App.watchlistStocks shown watchlist) /\
  (forall s', field s' "ticker" <> JStr t ->
     (s' ∈ App.watchlistStocks shown (toggleWatchlist t watchlist)
        <-> s' ∈ App.watchlistStocks shown watchlist) /\
     (s' ∈ App.otherStocks shown (toggleWatchlist t watchlist)
        <-> s' ∈ App.otherStocks shown watchlist)).
Proof.
  intros Hs Ht. unfold App.watchlistStocks, App.otherStocks.
  rewrite !list_elem_of_filter, Ht, includes_toggle_self.
  split; [|split].
  - tauto.
  - rewrite negb_involutive. tauto.
  - intros s' Hne. rewrite !list_elem_of_filter.
    rewrite (includes_toggle_other watchlist t _ Hne). tauto.
Qed.

Lemma star_moves_stock_witness :
  (Examples.aapl ∈ App.watchlistStocks Examples.board (toggleWatchlist "AAPL" ["PFE"])
     <-> Examples.aapl ∈ App.otherStocks Examples.board ["PFE"]) /\
  (Examples.aapl ∈ App.otherStocks Examples.board (toggleWatchlist "AAPL" ["PFE"])
     <-> Examples.aapl ∈ App.watchlistStocks Examples.board ["PFE"]) /\
  (forall s', field s' "ticker" <> JStr "AAPL" ->
     (s' ∈ App.watchlistStocks Examples.board (toggleWatchlist "AAPL" ["PFE"])
        <-> s' ∈ App.watchlistStocks Examples.board ["PFE"]) /\
     (s' ∈ App.otherStocks Examples.board (toggleWatchlist "AAPL" ["PFE"])
        <-> s' ∈ App.otherStocks Examples.board ["PFE"])).
Proof.
  apply (star_moves_stock Examples.board ["PFE"] Examples.aapl "AAPL").
  - repeat constructor.
  - reflexivity.
Defined.

(** X27.  The sentiment figures depend on the stocks only, not on their
    order: any rearrangement of the list gives the same counts and the same
    percentage. *)
Theorem calculateSentiment_order_independent (stocks stocks' : list Obj) :
  stocks ≡ₚ stocks' ->
  calculateSentiment stocks = calculateSentiment stocks'.
Proof.
  intros Hperm. unfold calculateSentiment.
  assert (Hlen : length stocks = length stocks') by by rewrite Hperm.
  assert (Hb : length (filter (fun s => isBullish s = true) stocks)
             = length (filter (fun s => isBullish s = true) stocks'))
    by by rewrite Hperm.
  by rewrite Hlen, Hb.
Qed.

Lemma calculateSentiment_order_independent_witness :
  calculateSentiment [Examples.aapl; Examples.pfe]
  = calculateSentiment [Examples.pfe; Examples.aapl].
Proof.
  apply (calculateSentiment_order_independent
           [Examples.aapl; Examples.pfe] [Examples.pfe; Examples.aapl]).
  apply perm_swap.
Defined.

(** ** Sentiment in exact arithmetic *)

(** X28.  [calculateSentiment] counts as [bullish] the entities whose
    status is the string ['BULLISH'] and as [bearish] all the others, so
    the two add up to the length of the list; and for a list of at most 39
    entities (the empty one included) [percent] is the percentage of
    bullish ones rounded to the nearest integer in exact arithmetic, a tie
    going up. *)
Theorem calculateSentiment_exact_upto_39 (stocks : list Obj) :
  bullish (calculateSentiment stocks) = countBullish stocks /\
  bearish (calculateSentiment stocks) = (length stocks - countBullish stocks)%nat /\
  (bullish (calculateSentiment stocks) + bearish (calculateSentiment stocks)
   = length stocks)%nat /\
  ((length stocks <= 39)%nat ->
   percent (calculateSentiment stocks)
   = of_Z (exactPercent (countBullish stocks) (length stocks))).
Proof.
  pose proof (countBullish_le stocks) as Hle.
  rewrite calculateSentiment_eq.
  destruct (Nat.eqb_spec (length stocks) 0) as [Hz|Hnz];
    cbn [bullish bearish percent].
  - assert (Hc : countBullish stocks = 0%nat) by lia.
    rewrite Hz, Hc. by repeat split.
  - split; [done|]. split; [done|]. split; [lia|]. intros Hlen.
    pose proof floatPercent_exact_upto_39 as Hall.
    rewrite forallb_forall in Hall.
    assert (Hn : percentsAgree (length stocks) = true).
    { apply Hall, in_seq. lia. }
    unfold percentsAgree in Hn. rewrite forallb_forall in Hn.
    apply FloatAxioms.Leibniz.eqb_spec, Hn, in_seq. lia.
Qed.

Lemma calculateSentiment_exact_upto_39_witness :
  bullish (calculateSentiment
             [Fixture.tagged "BULLISH"; Fixture.tagged "BULLISH";
              Fixture.tagged "BEARISH"]) = 2%nat /\
  bearish (calculateSentiment
             [Fixture.tagged "BULLISH"; Fixture.tagged "BULLISH";
              Fixture.tagged "BEARISH"]) = 1%nat /\
  percent (calculateSentiment
             [Fixture.tagged "BULLISH"; Fixture.tagged "BULLISH";
              Fixture.tagged "BEARISH"]) = 67%float.
Proof.
  destruct (calculateSentiment_exact_upto_39
              [Fixture.tagged "BULLISH"; Fixture.tagged "BULLISH";
               Fixture.tagged "BEARISH"]) as (Hb & Hr & _ & Hp).
  split; [exact Hb|]. split; [exact Hr|]. apply Hp. simpl. lia.
Defined.
